(** * Fridge slot lease manager (Discord bot over PostgreSQL)

    A shallow embedding of the two variants of the bot:
    - the multi-slot variant, where a user picks which of their slots to
      release ([Multi], the file with [releaseSpecificSlot]);
    - the single-slot variant [index.js] ([Single]), whose release button
      calls [releaseUserSlot].

    The [async] functions are functions in a state-and-exception monad over
    a [world]: the two PostgreSQL tables, the two clocks the code reads
    ([NOW()] in SQL and [Date.now()] in JavaScript), the Discord channel with
    its messages, and the state of the interaction being answered. *)

From stdpp Require Import base strings list gmap sorting pretty relations.
From Stdlib Require Import ZArith Lia Ascii.

Open Scope Z_scope.

(** ** Configuration *)

Definition SLOT_COUNT : Z := 24.
Definition RESERVE_HOURS : Z := 8.
Definition REFRESH_EVERY_MS : Z := 60000.

(** ** Data model *)

(** A row of [fridge_slots]. [TIMESTAMPTZ] values and JavaScript [Date]s are
    milliseconds since the epoch; SQL [NULL] is [None]. *)
Record slot := Slot {
  slot_no : Z;
  reserved_by_id : option string;
  reserved_by_name : option string;
  reserved_at : option Z;
  ends_at : option Z
}.

Global Instance slot_eq_dec : EqDecision slot.
Proof. solve_decision. Defined.

(** What the panel message holds: the embed and the row of buttons. *)
Record button := Button_ {
  customId : string;
  label : string;
  style : string
}.

Record panel := Panel {
  title : string;
  description : string;
  components : list button
}.

Global Instance button_eq_dec : EqDecision button.
Proof. solve_decision. Defined.
Global Instance panel_eq_dec : EqDecision panel.
Proof. solve_decision. Defined.

(** An option of a select menu. *)
Record menu_option := MenuOption {
  opt_label : string;
  opt_value : string;
  opt_description : string
}.

(** What an interaction is answered with. *)
Record response := Response {
  content : string;
  menu : option (string * list menu_option)   (* customId and options *)
}.

Inductive discord_call :=
| Sent (id : string)
| Edited (id : string).

Inductive error :=
| ReferenceError (name : string)
| DiscordAPIError (what : string).

Record world := World {
  fridge_slots : list slot;          (* table fridge_slots *)
  fridge_meta : gmap string string;  (* table fridge_meta, k -> v *)
  queries : nat;                     (* statements run through pool.query *)
  db_now : Z;                        (* what NOW() evaluates to *)
  js_now : Z;                        (* what Date.now() returns *)
  panel_channel : bool;              (* PANEL_CHANNEL_ID is a text channel *)
  messages : gmap string panel;      (* messages of that channel, by id *)
  incoming_ids : list string;        (* ids Discord gives to the next messages *)
  discord_log : list discord_call;   (* sends and edits so far, oldest first *)
  acknowledged : bool;               (* the interaction was replied or deferred *)
  responses : list response          (* what the interacting user was shown *)
}.

Definition set_slots (rows : list slot) (w : world) : world :=
  World rows (fridge_meta w) (queries w) (db_now w) (js_now w)
        (panel_channel w) (messages w) (incoming_ids w) (discord_log w)
        (acknowledged w) (responses w).

Definition set_meta (m : gmap string string) (w : world) : world :=
  World (fridge_slots w) m (queries w) (db_now w) (js_now w)
        (panel_channel w) (messages w) (incoming_ids w) (discord_log w)
        (acknowledged w) (responses w).

Definition count_query (w : world) : world :=
  World (fridge_slots w) (fridge_meta w) (S (queries w)) (db_now w) (js_now w)
        (panel_channel w) (messages w) (incoming_ids w) (discord_log w)
        (acknowledged w) (responses w).

Definition set_clocks (db js : Z) (w : world) : world :=
  World (fridge_slots w) (fridge_meta w) (queries w) db js
        (panel_channel w) (messages w) (incoming_ids w) (discord_log w)
        (acknowledged w) (responses w).

Definition set_discord (ms : gmap string panel) (ids : list string)
    (log : list discord_call) (w : world) : world :=
  World (fridge_slots w) (fridge_meta w) (queries w) (db_now w) (js_now w)
        (panel_channel w) ms ids log (acknowledged w) (responses w).

Definition set_interaction (ack : bool) (rs : list response) (w : world) : world :=
  World (fridge_slots w) (fridge_meta w) (queries w) (db_now w) (js_now w)
        (panel_channel w) (messages w) (incoming_ids w) (discord_log w)
        ack rs.

(** ** The monad of [async] functions *)

Inductive result (A : Type) :=
| Ok (a : A)
| Throw (e : error).
Arguments Ok {A} a.
Arguments Throw {A} e.

Definition M (A : Type) : Type := world → result A * world.

Definition ret {A} (a : A) : M A := λ w, (Ok a, w).

Definition bind {A B} (m : M A) (k : A → M B) : M B :=
  λ w, match m w with
       | (Ok a, w') => k a w'
       | (Throw e, w') => (Throw e, w')
       end.

Definition throw {A} (e : error) : M A := λ w, (Throw e, w).

Definition try_catch {A} (m : M A) (handler : error → M A) : M A :=
  λ w, match m w with
       | (Ok a, w') => (Ok a, w')
       | (Throw e, w') => handler e w'
       end.

Definition gets {A} (f : world → A) : M A := λ w, (Ok (f w), w).
Definition modify (f : world → world) : M unit := λ w, (Ok tt, f w).

Definition exec {A} (m : M A) (w : world) : world := snd (m w).
Definition eval {A} (m : M A) (w : world) : result A := fst (m w).

Notation "'let!' x := m 'in' k" := (bind m (λ x, k))
  (at level 10, x name, m at level 200, k at level 200, only parsing).
Notation "'do!' m 'in' k" := (bind m (λ _, k))
  (at level 10, m at level 200, k at level 200, only parsing).

(** ** The SQL statements *)

(** [UPDATE fridge_slots SET ... WHERE cond RETURNING ...]: every row that
    satisfies the condition is rewritten, and the rewritten rows are
    returned. *)
Definition sql_update (cond : slot → bool) (set : slot → slot)
    (rows : list slot) : list slot * list slot :=
  ((λ r, if cond r then set r else r) <$> rows, set <$> List.filter cond rows).

(** [pool.query] of an [UPDATE]. *)
Definition query_update (cond : slot → bool) (set : slot → slot) : M (list slot) :=
  λ w, let '(rows, returned) := sql_update cond set (fridge_slots w) in
       (Ok returned, count_query (set_slots rows w)).

(** [SET reserved_by_id=NULL, reserved_by_name=NULL, reserved_at=NULL,
    ends_at=NULL]. *)
Definition clear_slot (r : slot) : slot :=
  Slot (slot_no r) None None None None.

Definition is_null {A} (o : option A) : bool :=
  match o with None => true | Some _ => false end.

(** [ends_at IS NOT NULL AND ends_at <= NOW()]. *)
Definition expired_at (now : Z) (r : slot) : bool :=
  match ends_at r with
  | Some e => e <=? now
  | None => false
  end.

(** [ORDER BY slot_no ASC]. *)
Definition slot_no_le (a b : slot) : Prop := slot_no a ≤ slot_no b.

Global Instance slot_no_le_dec a b : Decision (slot_no_le a b).
Proof. unfold slot_no_le. apply _. Defined.

Definition order_by_slot_no (rows : list slot) : list slot :=
  merge_sort slot_no_le rows.

(** [INSERT INTO fridge_slots(slot_no) VALUES($1) ON CONFLICT (slot_no) DO
    NOTHING]. *)
Definition insert_slot (i : Z) (rows : list slot) : list slot :=
  if existsb (λ r, slot_no r =? i) rows then rows
  else rows ++ [Slot i None None None None].

(** The loop [for (let i = 1; i <= SLOT_COUNT; i++)] of [dbInit], counting
    the remaining iterations. *)
Fixpoint ensure_slots (remaining : nat) (i : Z) : M unit :=
  match remaining with
  | O => ret tt
  | S k =>
      do! modify (λ w, count_query (set_slots (insert_slot i (fridge_slots w)) w)) in
      ensure_slots k (i + 1)
  end.

(** [CREATE TABLE IF NOT EXISTS] leaves a table that exists as it is; the
    world always has both tables, empty before the first start. *)
Definition dbInit : M unit :=
  do! modify count_query in
  do! modify count_query in
  ensure_slots (Z.to_nat SLOT_COUNT) 1.

Definition getMeta (key : string) : M (option string) :=
  λ w, (Ok (fridge_meta w !! key), count_query w).

Definition setMeta (key value : string) : M unit :=
  λ w, (Ok tt, count_query (set_meta (<[key := value]> (fridge_meta w)) w)).

Definition freeExpiredSlots : M unit :=
  let! now := gets db_now in
  do! query_update (expired_at now) clear_slot in
  ret tt.

Definition getSlots : M (list slot) :=
  λ w, (Ok (order_by_slot_no (fridge_slots w)), count_query w).

Definition reserveSlot (slotNo : Z) (userId userName : string) : M bool :=
  let! date_now := gets js_now in
  let endsAt := date_now + RESERVE_HOURS * 60 * 60 * 1000 in
  let! now := gets db_now in
  let! r := query_update
         (λ row, (slot_no row =? slotNo) && is_null (reserved_by_id row))
         (λ row, Slot (slot_no row) (Some userId) (Some userName) (Some now) (Some endsAt)) in
  ret (bool_decide (length r = 1%nat)).

(** [SELECT slot_no, ends_at ... WHERE reserved_by_id=$1 ORDER BY slot_no
    ASC]. *)
Definition getUserReservedSlots (userId : string) : M (list (Z * option Z)) :=
  λ w, (Ok ((λ r, (slot_no r, ends_at r)) <$>
              order_by_slot_no
                (List.filter (λ r, bool_decide (reserved_by_id r = Some userId))
                             (fridge_slots w))),
        count_query w).

Definition releaseSpecificSlot (slotNo : Z) (userId : string) : M (option Z) :=
  let! r := query_update
         (λ row, (slot_no row =? slotNo) && bool_decide (reserved_by_id row = Some userId))
         clear_slot in
  ret (slot_no <$> head r).

(** ** Rendering *)

(** JavaScript truthiness of a nullable string: [null] and the empty string
    are falsy. *)
Definition truthy (o : option string) : bool :=
  match o with
  | Some s => bool_decide (s ≠ "")
  | None => false
  end.

(** [String(n)] for an integer. *)
Definition js_String (n : Z) : string := pretty n.

Fixpoint zeros (k : nat) : string :=
  match k with
  | O => ""
  | S k' => "0" +:+ zeros k'
  end.

(** [s.padStart(target, "0")]. *)
Definition padStart0 (target : nat) (s : string) : string :=
  zeros (target - String.length s) +:+ s.

Definition pad2 (n : Z) : string := padStart0 2 (js_String n).

(** The argument is a difference of two millisecond timestamps, an
    integer; [Math.floor] of a quotient of integers is [Z.div], and [%] is
    [Z.rem]. *)
Definition humanRemaining (ms : Z) : string :=
  if ms <=? 0 then "expirat"
  else
    let totalMin := ms / 60000 in
    let h := totalMin / 60 in
    let m := Z.rem totalMin 60 in
    if h <=? 0 then "peste " +:+ js_String m +:+ " minute"
    else if m =? 0 then "peste " +:+ js_String h +:+ " ore"
    else "peste " +:+ js_String h +:+ " ore " +:+ js_String m +:+ " minute".

Definition newline : string := String (ascii_of_nat 10) EmptyString.

(** The two files differ in two texts only. *)
Inductive variant := MultiSlot | SingleSlot.

Definition intro_line (v : variant) : string :=
  match v with
  | MultiSlot => "📱 Sistem automatizat. Selectează un frigider pentru rezervare."
  | SingleSlot => "📱 Selectează frigiderele pe care le folosesti."
  end.

Definition release_label (v : variant) : string :=
  match v with
  | MultiSlot => "Eliberează (aleg)"
  | SingleSlot => "Eliberează (al meu)"
  end.

(** The body of the loop [for (const s of slots)]: the line pushed for [s]. *)
Definition slot_line (now : Z) (s : slot) : string :=
  let label := "[" +:+ pad2 (slot_no s) +:+ "]" in
  match truthy (reserved_by_id s), ends_at s with
  | true, Some ends =>
      let remaining := humanRemaining (ends - now) in
      let name := if truthy (reserved_by_name s)
                  then default "" (reserved_by_name s) else "Necunoscut" in
      label +:+ " 🔴 " +:+ name +:+ "  ⏳ " +:+ remaining
  | _, _ => label +:+ " 🟢 Liber"
  end.

Definition buildControlsRow (v : variant) : list button :=
  [ Button_ "fridge_reserve" "Rezervă (8h)" "Primary";
    Button_ "fridge_release" (release_label v) "Danger";
    Button_ "fridge_refresh" "Refresh" "Secondary" ].

(** [buildPanelEmbed]: the only thing it reads besides its argument is the
    clock, [Date.now()]. *)
Definition buildPanelEmbed (v : variant) (slots : list slot) : M (string * string) :=
  let lines := [intro_line v; ""; "🧊 Status Frigidere"; ""] in
  let! now := gets js_now in
  let lines := fold_left (λ lines s, lines ++ [slot_line now s]) slots lines in
  ret ("Garaj Operations Panel",
       "```" +:+ String.concat newline lines +:+ "```").

(** ** The panel message *)

(** [channel.messages.fetch(id).catch(() => null)], read as the request to
    Discord: the message is found exactly when the channel has it. The
    client's cache of messages is not modelled, so a message deleted while
    the process that sent it runs is outside these definitions. *)
Definition messages_fetch (id : string) : M bool :=
  gets (λ w, bool_decide (is_Some (messages w !! id))).

(** [msg.edit], of a message that [messages_fetch] has just found. *)
Definition message_edit (id : string) (doc : panel) : M unit :=
  modify (λ w, set_discord (<[id := doc]> (messages w)) (incoming_ids w)
                           (discord_log w ++ [Edited id]) w).

(** [channel.send]: Discord creates the message under an id of its choice;
    with no id to give, the call fails. *)
Definition channel_send (doc : panel) : M string :=
  λ w, match incoming_ids w with
       | id :: ids =>
           (Ok id, set_discord (<[id := doc]> (messages w)) ids
                               (discord_log w ++ [Sent id]) w)
       | [] => (Throw (DiscordAPIError "send"), w)
       end.

Definition upsertPanelMessage (v : variant) : M unit :=
  let! channel := gets panel_channel in
  if negb channel then ret tt
  else
    do! freeExpiredSlots in
    let! slots := getSlots in
    let! embed := buildPanelEmbed v slots in
    let doc := Panel (fst embed) (snd embed) (buildControlsRow v) in
    let! messageId := getMeta "panel_message_id" in
    let create :=
      let! sent := channel_send doc in
      setMeta "panel_message_id" sent in
    if truthy messageId then
      let id := default "" messageId in
      let! msg := messages_fetch id in
      if msg then message_edit id doc
      else create
    else create.

(** ** Interactions *)

Inductive interaction_kind :=
| ChatInputCommand (commandName : string)
| ButtonPress (customId : string)
| StringSelectMenu (customId : string) (values : list string).

Record interaction := Interaction {
  kind : interaction_kind;
  user_id : string;
  user_username : string;
  member_displayName : option string
}.

(** [interaction.member?.displayName || interaction.user.username]. *)
Definition displayName (i : interaction) : string :=
  if truthy (member_displayName i) then default "" (member_displayName i)
  else user_username i.

Definition interaction_reply (r : response) : M unit :=
  λ w, if acknowledged w
       then (Throw (DiscordAPIError "InteractionAlreadyReplied"), w)
       else (Ok tt, set_interaction true (responses w ++ [r]) w).

(** [deferReply] and [deferUpdate]. *)
Definition interaction_defer : M unit :=
  λ w, if acknowledged w
       then (Throw (DiscordAPIError "InteractionAlreadyReplied"), w)
       else (Ok tt, set_interaction true (responses w) w).

Definition interaction_editReply (r : response) : M unit :=
  λ w, if acknowledged w
       then (Ok tt, set_interaction true (responses w ++ [r]) w)
       else (Throw (DiscordAPIError "InteractionNotReplied"), w).

Definition text (s : string) : response := Response s None.

(** What [Number(interaction.values[0])] can be: an integer, or a value for
    which [Number.isInteger] is false ([NaN], an infinity, a fraction). *)
Inductive js_number :=
| Integral (n : Z)
| NonIntegral.

(** [!Number.isInteger(slotNo) || slotNo < 1 || slotNo > SLOT_COUNT]; on a
    value that is no integer the first disjunct decides. *)
Definition slot_invalid (slotNo : js_number) : bool :=
  match slotNo with
  | Integral n => (n <? 1) || (n >? SLOT_COUNT)
  | NonIntegral => true
  end.

Definition slot_option (description : string) (n : Z) : menu_option :=
  MenuOption ("Frigider " +:+ pad2 n) (js_String n) description.

(** The [fridge_reserve] button, the same in both files. *)
Definition on_fridge_reserve : M unit :=
  do! freeExpiredSlots in
  let! slots := getSlots in
  let freeSlots := List.filter (λ s, negb (truthy (reserved_by_id s))) slots in
  if bool_decide (length freeSlots = 0%nat)
  then interaction_reply (text "❌ Nu există frigidere libere acum.")
  else
    interaction_reply
      (Response "Selectează frigiderul pe care vrei să-l rezervi (8 ore):"
         (Some ("fridge_pick_slot",
                (λ s, slot_option ("Rezervare pentru " +:+ js_String RESERVE_HOURS +:+ " ore")
                                  (slot_no s)) <$> take 25 freeSlots))).

(** The [catch] of the listener: [isRepliable()] holds for the three kinds
    of interaction handled, and a failure of the last reply is swallowed. *)
Definition on_error : M unit :=
  try_catch (interaction_reply (text "❌ A apărut o eroare.")) (λ _, ret tt).

(** [Number(interaction.values[0])]; [Number] is the host's conversion, and
    [Number(undefined)] is [NaN]. *)
Definition picked_number (Number : string → js_number) (values : list string) : js_number :=
  match values with
  | v :: _ => Number v
  | [] => NonIntegral
  end.

(** The integer a validated [slotNo] is passed on as. *)
Definition integer_value (x : js_number) : Z :=
  match x with
  | Integral n => n
  | NonIntegral => 0
  end.

(** *** The multi-slot variant *)

Module Multi.
Section Listener.
Variable Number : string → js_number.

Definition on_setup : M unit :=
  do! interaction_defer in
  do! upsertPanelMessage MultiSlot in
  interaction_editReply (text "✅ Panel actualizat.").

Definition on_fridge_refresh : M unit :=
  do! interaction_defer in
  upsertPanelMessage MultiSlot.

Definition on_fridge_release (i : interaction) : M unit :=
  do! interaction_defer in
  do! freeExpiredSlots in
  let! mine := getUserReservedSlots (user_id i) in
  if bool_decide (length mine = 0%nat)
  then interaction_editReply (text "❌ Nu ai niciun frigider rezervat.")
  else
    interaction_editReply
      (Response "Selectează frigiderul pe care vrei să-l eliberezi:"
         (Some ("fridge_release_pick",
                (λ s, slot_option "Eliberează acest frigider" (fst s))
                  <$> take 25 mine))).

Definition on_fridge_pick_slot (i : interaction) (values : list string) : M unit :=
  let slotNo := picked_number Number values in
  if slot_invalid slotNo
  then interaction_reply (text "❌ Slot invalid.")
  else
    let slotNo := integer_value slotNo in
    do! interaction_defer in
    do! freeExpiredSlots in
    let! ok := reserveSlot slotNo (user_id i) (displayName i) in
    if negb ok
    then interaction_editReply
           (text ("❌ Frigiderul " +:+ pad2 slotNo +:+
                  " a fost rezervat deja. Dă refresh și alege altul."))
    else
      do! upsertPanelMessage MultiSlot in
      interaction_editReply
        (text ("✅ Ai rezervat frigiderul **" +:+ pad2 slotNo +:+ "** pentru **" +:+
               js_String RESERVE_HOURS +:+ " ore**.")).

(** [!released] holds for [null] and for the number 0. *)
Definition on_fridge_release_pick (i : interaction) (values : list string) : M unit :=
  let slotNo := picked_number Number values in
  if slot_invalid slotNo
  then interaction_reply (text "❌ Slot invalid.")
  else
    let slotNo := integer_value slotNo in
    do! interaction_defer in
    do! freeExpiredSlots in
    let! released := releaseSpecificSlot slotNo (user_id i) in
    match released with
    | Some n =>
        if n =? 0
        then interaction_editReply
               (text ("❌ Nu poți elibera frigiderul " +:+ pad2 slotNo +:+
                      " (nu este rezervat de tine sau e deja liber)."))
        else
          do! upsertPanelMessage MultiSlot in
          interaction_editReply
            (text ("✅ Ai eliberat frigiderul **" +:+ pad2 n +:+ "**."))
    | None =>
        interaction_editReply
          (text ("❌ Nu poți elibera frigiderul " +:+ pad2 slotNo +:+
                 " (nu este rezervat de tine sau e deja liber)."))
    end.

Definition dispatch (i : interaction) : M unit :=
  match kind i with
  | ChatInputCommand name =>
      if bool_decide (name = "setup-frigidere") then on_setup else ret tt
  | ButtonPress id =>
      if bool_decide (id = "fridge_refresh") then on_fridge_refresh
      else if bool_decide (id = "fridge_reserve") then on_fridge_reserve
      else if bool_decide (id = "fridge_release") then on_fridge_release i
      else ret tt
  | StringSelectMenu id values =>
      if bool_decide (id = "fridge_pick_slot") then on_fridge_pick_slot i values
      else if bool_decide (id = "fridge_release_pick") then on_fridge_release_pick i values
      else ret tt
  end.

(** The listener of [Events.InteractionCreate], on an interaction that has
    not been answered yet. *)
Definition on_InteractionCreate (i : interaction) : M unit :=
  do! modify (set_interaction false []) in
  try_catch (dispatch i) (λ _, on_error).
End Listener.
End Multi.

(** *** The single-slot variant, [index.js] *)

Module Single.
(** Everything [index.js] declares at module level: the destructured
    imports, the constants and the functions. *)
Definition declared : list string :=
  [ "Client"; "GatewayIntentBits"; "REST"; "Routes"; "SlashCommandBuilder";
    "ActionRowBuilder"; "ButtonBuilder"; "ButtonStyle"; "StringSelectMenuBuilder";
    "Events"; "EmbedBuilder"; "Pool";
    "SLOT_COUNT"; "RESERVE_HOURS"; "REFRESH_EVERY_MS"; "mustEnv";
    "TOKEN"; "CLIENT_ID"; "GUILD_ID"; "PANEL_CHANNEL_ID"; "DATABASE_URL";
    "pool"; "dbInit"; "getMeta"; "setMeta"; "freeExpiredSlots"; "getSlots";
    "reserveSlot"; "client"; "pad2"; "humanRemaining"; "buildPanelEmbed";
    "buildControlsRow"; "upsertPanelMessage"; "registerCommands" ].

(** Evaluating an identifier: with no declaration to refer to, it throws a
    [ReferenceError]. *)
Definition resolve {A} (name : string) (declaration : option A) : M A :=
  match declaration with
  | Some f => ret f
  | None => throw (ReferenceError name)
  end.

(** The call [releaseUserSlot(interaction.user.id)]: [index.js] declares no
    [releaseUserSlot]. *)
Definition releaseUserSlot (userId : string) : M (option Z) :=
  let! f := resolve "releaseUserSlot" (None : option (string → M (option Z))) in
  f userId.

Section Listener.
Variable Number : string → js_number.

(** [on_setup] and [on_fridge_pick_slot] end in [return
    interaction.reply(...)], which [index.js] does not await. Here a reply
    to an interaction not yet acknowledged always goes through, so these
    definitions say what the handlers do when Discord accepts the reply, and
    nothing of a reply that Discord rejects. *)
Definition on_setup : M unit :=
  do! upsertPanelMessage SingleSlot in
  interaction_reply (text "✅ Panel actualizat.").

Definition on_fridge_refresh : M unit :=
  do! interaction_defer in
  upsertPanelMessage SingleSlot.

Definition on_fridge_release (i : interaction) : M unit :=
  do! interaction_defer in
  do! freeExpiredSlots in
  let! releasedSlot := releaseUserSlot (user_id i) in
  match releasedSlot with
  | Some n =>
      if n =? 0
      then interaction_editReply (text "❌ Nu ai niciun frigider rezervat.")
      else
        do! upsertPanelMessage SingleSlot in
        interaction_editReply (text ("✅ Ai eliberat frigiderul **" +:+ pad2 n +:+ "**."))
  | None => interaction_editReply (text "❌ Nu ai niciun frigider rezervat.")
  end.

Definition on_fridge_pick_slot (i : interaction) (values : list string) : M unit :=
  let slotNo := picked_number Number values in
  if slot_invalid slotNo
  then interaction_reply (text "❌ Slot invalid.")
  else
    let slotNo := integer_value slotNo in
    do! freeExpiredSlots in
    let! ok := reserveSlot slotNo (user_id i) (displayName i) in
    if negb ok
    then interaction_reply
           (text ("❌ Frigiderul " +:+ pad2 slotNo +:+
                  " a fost rezervat deja de altcineva. Dă refresh și alege altul."))
    else
      do! upsertPanelMessage SingleSlot in
      interaction_reply
        (text ("✅ Ai rezervat frigiderul **" +:+ pad2 slotNo +:+ "** pentru **" +:+
               js_String RESERVE_HOURS +:+ " ore**.")).

Definition dispatch (i : interaction) : M unit :=
  match kind i with
  | ChatInputCommand name =>
      if bool_decide (name = "setup-frigidere") then on_setup else ret tt
  | ButtonPress id =>
      if bool_decide (id = "fridge_refresh") then on_fridge_refresh
      else if bool_decide (id = "fridge_release") then on_fridge_release i
      else if bool_decide (id = "fridge_reserve") then on_fridge_reserve
      else ret tt
  | StringSelectMenu id values =>
      if bool_decide (id = "fridge_pick_slot") then on_fridge_pick_slot i values
      else ret tt
  end.

Definition on_InteractionCreate (i : interaction) : M unit :=
  do! modify (set_interaction false []) in
  try_catch (dispatch i) (λ _, on_error).
End Listener.
End Single.

(** *** Start-up and the refresh tick *)

(** [registerCommands] puts the command list to Discord's registry and
    touches neither the store nor the channel; the request resolves or is
    rejected, which [accepted] tells. *)
Definition registerCommands (accepted : bool) : M unit :=
  if accepted then ret tt else throw (DiscordAPIError "put").

(** The [ClientReady] listener, up to the timer it sets: [dbInit],
    [registerCommands], then the first [upsertPanelMessage]. *)
Definition startup (v : variant) (accepted : bool) : M unit :=
  do! dbInit in
  do! registerCommands accepted in
  upsertPanelMessage v.

(** The callback of [setInterval]: an error of the refresh is logged and
    dropped. *)
Definition refresh_tick (v : variant) : M unit :=
  try_catch (upsertPanelMessage v) (λ _, ret tt).

(** * The vocabulary of the properties *)

(** The [WHERE] clauses of [reserveSlot] and of [releaseSpecificSlot]. *)
Definition reserve_cond (slotNo : Z) (row : slot) : bool :=
  (slot_no row =? slotNo) && is_null (reserved_by_id row).

Definition release_cond (slotNo : Z) (userId : string) (row : slot) : bool :=
  (slot_no row =? slotNo) && bool_decide (reserved_by_id row = Some userId).

(** A row is either blank or a lease: a holder (never the empty string: the
    holder is a Discord user id) with an expiry. *)
Definition row_ok (r : slot) : Prop :=
  match reserved_by_id r with
  | None => reserved_by_name r = None ∧ reserved_at r = None ∧ ends_at r = None
  | Some u => u ≠ "" ∧ is_Some (ends_at r)
  end.

(** [slot_no] is the primary key. *)
Definition table_ok (rows : list slot) : Prop :=
  NoDup (slot_no <$> rows) ∧ Forall row_ok rows.

(** One step of the system on the store: a call of one of the functions that
    write [fridge_slots], or anything else that leaves that table alone (the
    clocks moving on, Discord, the other table). *)
Inductive step : world → world → Prop :=
| step_dbInit w :
    step w (exec dbInit w)
| step_freeExpiredSlots w :
    step w (exec freeExpiredSlots w)
| step_reserveSlot w s u n :
    u ≠ "" → step w (exec (reserveSlot s u n) w)
| step_releaseSpecificSlot w s u :
    step w (exec (releaseSpecificSlot s u) w)
| step_upsertPanelMessage w v :
    step w (exec (upsertPanelMessage v) w)
| step_other w w' :
    fridge_slots w' = fridge_slots w → step w w'.

(** The worlds reachable from an empty [fridge_slots]. *)
Definition reachable (w : world) : Prop :=
  ∃ w0, fridge_slots w0 = [] ∧ rtc step w0 w.

(** The empty database the bot is first started on. *)
Definition fresh_world : world :=
  World [] ∅ 0 0 0 true ∅ ["1001"; "1002"; "1003"] [] false [].

(** User [u] holds slot [s]: the row of [s] has [reserved_by_id = u]. *)
Definition holds (w : world) (s : Z) (u : string) : Prop :=
  ∃ r, r ∈ fridge_slots w ∧ slot_no r = s ∧ reserved_by_id r = Some u.

(** Slot [s] exists and its [reserved_by_id] is [NULL]. *)
Definition free_slot (w : world) (s : Z) : Prop :=
  ∃ r, r ∈ fridge_slots w ∧ slot_no r = s ∧ reserved_by_id r = None.

(** The bot started on the empty database: slots 1 to 24, all free. *)
Definition started_world : world := exec dbInit fresh_world.

(** Slot 1 is held by a third user, whose lease has not expired. *)
Definition carol_world : world :=
  exec (reserveSlot 1 "carol" "Carol") started_world.

(** Nine hours after carol's claim: her lease, of eight hours, is over and
    no sweep has run yet. *)
Definition expired_world : world := set_clocks 32400000 32400000 carol_world.

(** The lease of row [r] ended at or before [now]. *)
Definition lease_over (now : Z) (r : slot) : Prop :=
  ∃ e, ends_at r = Some e ∧ e ≤ now.

(** The document as a function of the rows and of the clock reading. *)
Definition panel_lines (v : variant) (slots : list slot) (now : Z) : list string :=
  [intro_line v; ""; "🧊 Status Frigidere"; ""] ++ (slot_line now <$> slots).

Definition render_embed (v : variant) (slots : list slot) (now : Z) : string * string :=
  ("Garaj Operations Panel",
   "```" +:+ String.concat newline (panel_lines v slots now) +:+ "```").

Definition panel_doc (v : variant) (slots : list slot) (now : Z) : panel :=
  Panel (render_embed v slots now).1 (render_embed v slots now).2
        (buildControlsRow v).

(** The document a call of [upsertPanelMessage] in [w] renders: of the rows
    as its sweep leaves them, at the time [Date.now()] gives. *)
Definition rendered (v : variant) (w : world) : panel :=
  panel_doc v (order_by_slot_no (fridge_slots (exec freeExpiredSlots w))) (js_now w).

(** The world once the three statements of [upsertPanelMessage] have run. *)
Definition after_queries (w : world) : world :=
  count_query (count_query (exec freeExpiredSlots w)).

(** The message the stored identifier points to. *)
Definition published (w : world) : option panel :=
  match fridge_meta w !! "panel_message_id" with
  | Some id => messages w !! id
  | None => None
  end.

(** The world in which the listener starts on an interaction. *)
Definition arrival (w : world) : world := set_interaction false [] w.

(** A listener run that only told the user that the slot is invalid: it
    returned normally, and sent no statement to the database and nothing to
    the channel. *)
Definition rejected_untouched (listener : M unit) (w : world) : Prop :=
  eval listener w = Ok tt ∧
  responses (exec listener w) = [text "❌ Slot invalid."] ∧
  queries (exec listener w) = queries w ∧
  fridge_slots (exec listener w) = fridge_slots w ∧
  fridge_meta (exec listener w) = fridge_meta w ∧
  messages (exec listener w) = messages w ∧
  discord_log (exec listener w) = discord_log w.

(** A conversion for examples: the decimal numerals of one and of two
    digits it knows, and nothing else. *)
Definition sample_Number (v : string) : js_number :=
  if bool_decide (v = "1") then Integral 1
  else if bool_decide (v = "24") then Integral 24
  else if bool_decide (v = "25") then Integral 25
  else if bool_decide (v = "0") then Integral 0
  else NonIntegral.

(** The row [INSERT INTO fridge_slots(slot_no) VALUES(i)] makes. *)
Definition blank_slot (i : Z) : slot := Slot i None None None None.

(** What the loop of [dbInit] does to the rows. *)
Fixpoint ensure_rows (remaining : nat) (i : Z) (rows : list slot) : list slot :=
  match remaining with
  | O => rows
  | S k => ensure_rows k (i + 1) (insert_slot i rows)
  end.

(** The slot numbers of the table, in the order of its rows. *)
Definition slot_numbers (w : world) : list Z := slot_no <$> fridge_slots w.

(** The world once the listener has deferred its answer. *)
Definition deferred (w : world) : world :=
  set_interaction true [] (set_interaction false [] w).

(** The two kinds of line of the panel. *)
Definition free_line (s : Z) : string :=
  ("[" +:+ pad2 s +:+ "]") +:+ " 🟢 Liber".

Definition leased_line (s : Z) (name remaining : string) : string :=
  ("[" +:+ pad2 s +:+ "]") +:+ " 🔴 " +:+ name +:+ "  ⏳ " +:+ remaining.

(** The name a lease is shown under. *)
Definition shown_name (r : slot) : string :=
  if truthy (reserved_by_name r) then default "" (reserved_by_name r)
  else "Necunoscut".

(** Nothing the panel could be edited in: no identifier stored, an empty
    one, or one whose message is gone from the channel. *)
Definition no_panel_message (w : world) : Prop :=
  ∀ old, fridge_meta w !! "panel_message_id" = Some old → old ≠ "" →
         messages w !! old = None.


(** The select menus of the two listeners, as interactions. *)
Definition pick_slot (values : list string) (u un : string) (dn : option string)
    : interaction :=
  Interaction (StringSelectMenu "fridge_pick_slot" values) u un dn.

Definition release_pick (values : list string) (u un : string) (dn : option string)
    : interaction :=
  Interaction (StringSelectMenu "fridge_release_pick" values) u un dn.

(** The rows the reserve button offers: [slots.filter((s) =>
    !s.reserved_by_id)]. *)
Definition without_holder (slots : list slot) : list slot :=
  List.filter (λ s, negb (truthy (reserved_by_id s))) slots.

(** * Properties *)

(** ** Conditional updates *)

Section sql_update.
Context (cond : slot → bool) (set : slot → slot).

Lemma sql_update_rows rows :
  (sql_update cond set rows).1 = (λ r, if cond r then set r else r) <$> rows.
Proof. reflexivity. Qed.

Lemma sql_update_returned_length rows :
  length (sql_update cond set rows).2 = length (List.filter cond rows).
Proof. unfold sql_update; simpl. by rewrite length_fmap. Qed.

Lemma sql_update_none rows :
  List.filter cond rows = [] → (sql_update cond set rows).1 = rows.
Proof.
  rewrite sql_update_rows. induction rows as [|r rows IH]; csimpl; [done|].
  destruct (cond r); [done|]. intros H. f_equal. by apply IH.
Qed.

Lemma sql_update_lookup rows i r :
  rows !! i = Some r →
  (sql_update cond set rows).1 !! i = Some (if cond r then set r else r).
Proof. intros H. by rewrite sql_update_rows, list_lookup_fmap, H. Qed.

Lemma sql_update_slot_no rows :
  (∀ r, slot_no (set r) = slot_no r) →
  slot_no <$> (sql_update cond set rows).1 = slot_no <$> rows.
Proof.
  intros Hset. rewrite sql_update_rows, <- list_fmap_compose.
  apply list_fmap_ext. intros _ r _. simpl. destruct (cond r); auto.
Qed.

Lemma sql_update_elem_of rows r' :
  r' ∈ (sql_update cond set rows).1 ↔
  ∃ r, r ∈ rows ∧ r' = (if cond r then set r else r).
Proof.
  rewrite sql_update_rows, list_elem_of_fmap. split.
  - intros (r & -> & Hr). by exists r.
  - intros (r & Hr & ->). by exists r.
Qed.
End sql_update.

Lemma filter_nil_iff (p : slot → bool) rows :
  List.filter p rows = [] ↔ ∀ r, r ∈ rows → p r = false.
Proof.
  induction rows as [|x rows IH]; simpl.
  - split; [|done]. intros _ r Hr. by apply elem_of_nil in Hr.
  - destruct (p x) eqn:Hx.
    + split; [done|]. intros H. specialize (H x (list_elem_of_here _ _)). congruence.
    + rewrite IH. split.
      * intros H r Hr. apply elem_of_cons in Hr as [->|Hr]; auto.
      * intros H r Hr. apply H. by apply list_elem_of_further.
Qed.

Lemma filter_elem_of (p : slot → bool) rows r :
  r ∈ List.filter p rows ↔ r ∈ rows ∧ p r = true.
Proof. rewrite !list_elem_of_In. apply filter_In. Qed.

(** Under the primary key, a condition that fixes [slot_no] selects at most
    one row. *)
Lemma filter_primary_key (p : slot → bool) s rows :
  NoDup (slot_no <$> rows) →
  (∀ r, p r = true → slot_no r = s) →
  (length (List.filter p rows) ≤ 1)%nat.
Proof.
  intros Hnd Hp. induction rows as [|x rows IH]; simpl; [lia|].
  apply NoDup_cons in Hnd as [Hx Hnd]. fold (fmap slot_no rows) in Hx, Hnd.
  specialize (IH Hnd). destruct (p x) eqn:Hpx; [|lia].
  assert (List.filter p rows = []) as ->; [|simpl; lia].
  apply filter_nil_iff. intros r Hr. destruct (p r) eqn:Hpr; [|done].
  exfalso. apply Hx. apply list_elem_of_fmap. exists r. split; [|done].
  rewrite (Hp _ Hpx), (Hp _ Hpr). done.
Qed.

(** ** What the store functions do to the world *)

Lemma freeExpiredSlots_eval w : eval freeExpiredSlots w = Ok tt.
Proof. reflexivity. Qed.

Lemma freeExpiredSlots_slots w :
  fridge_slots (exec freeExpiredSlots w) =
  (sql_update (expired_at (db_now w)) clear_slot (fridge_slots w)).1.
Proof. reflexivity. Qed.

Lemma freeExpiredSlots_frame w :
  let w' := exec freeExpiredSlots w in
  fridge_meta w' = fridge_meta w ∧ db_now w' = db_now w ∧ js_now w' = js_now w ∧
  panel_channel w' = panel_channel w ∧ messages w' = messages w ∧
  incoming_ids w' = incoming_ids w ∧ discord_log w' = discord_log w ∧
  acknowledged w' = acknowledged w ∧ responses w' = responses w.
Proof. by repeat split. Qed.

Lemma reserveSlot_eval s u n w :
  eval (reserveSlot s u n) w =
  Ok (bool_decide (length (List.filter (reserve_cond s) (fridge_slots w)) = 1%nat)).
Proof.
  unfold eval, reserveSlot, bind, gets, query_update, ret; simpl.
  by rewrite length_fmap.
Qed.

Lemma reserveSlot_slots s u n w :
  fridge_slots (exec (reserveSlot s u n) w) =
  (sql_update (reserve_cond s)
     (λ row, Slot (slot_no row) (Some u) (Some n) (Some (db_now w))
                  (Some (js_now w + RESERVE_HOURS * 60 * 60 * 1000)))
     (fridge_slots w)).1.
Proof. reflexivity. Qed.

Lemma releaseSpecificSlot_eval s u w :
  eval (releaseSpecificSlot s u) w =
  Ok (slot_no <$> head (clear_slot <$> List.filter (release_cond s u) (fridge_slots w))).
Proof. reflexivity. Qed.

Lemma releaseSpecificSlot_slots s u w :
  fridge_slots (exec (releaseSpecificSlot s u) w) =
  (sql_update (release_cond s u) clear_slot (fridge_slots w)).1.
Proof. reflexivity. Qed.

(** ** The states the bot can bring the store into *)

Lemma row_ok_clear r : row_ok (clear_slot r).
Proof. by unfold row_ok. Qed.

Lemma table_ok_update cond set rows :
  (∀ r, slot_no (set r) = slot_no r) →
  (∀ r, row_ok (set r)) →
  table_ok rows → table_ok (sql_update cond set rows).1.
Proof.
  intros Hkey Hset [Hnd Hrows]. split.
  - by rewrite sql_update_slot_no.
  - rewrite sql_update_rows. apply Forall_fmap.
    eapply Forall_impl; [exact Hrows|]. intros r Hr. simpl.
    destruct (cond r); auto.
Qed.

Lemma existsb_slot_no i rows :
  existsb (λ r, slot_no r =? i) rows = false → i ∉ slot_no <$> rows.
Proof.
  intros H Hin. apply list_elem_of_fmap in Hin as (r & -> & Hr).
  assert (existsb (λ r', slot_no r' =? slot_no r) rows = true); [|congruence].
  apply existsb_exists. exists r. split; [by apply list_elem_of_In|lia].
Qed.

Lemma table_ok_insert i rows : table_ok rows → table_ok (insert_slot i rows).
Proof.
  intros [Hnd Hrows]. unfold insert_slot.
  destruct (existsb _ rows) eqn:Hex; [done|]. split.
  - rewrite fmap_app. apply NoDup_app. split; [done|]. split.
    + intros x Hx Hi. apply list_elem_of_singleton in Hi as ->.
      by apply (existsb_slot_no _ _ Hex).
    + apply NoDup_singleton.
  - apply Forall_app. split; [done|]. apply Forall_singleton. by unfold row_ok.
Qed.

Lemma ensure_slots_table_ok k i w :
  table_ok (fridge_slots w) → table_ok (fridge_slots (exec (ensure_slots k i) w)).
Proof.
  revert i w. induction k as [|k IH]; intros i w Hok; [done|].
  change (exec (ensure_slots (S k) i) w)
    with (exec (ensure_slots k (i + 1))
            (count_query (set_slots (insert_slot i (fridge_slots w)) w))).
  apply IH. simpl. by apply table_ok_insert.
Qed.

Lemma dbInit_exec_from k w :
  exec (do! modify count_query in do! modify count_query in ensure_slots k 1) w =
  exec (ensure_slots k 1) (count_query (count_query w)).
Proof. reflexivity. Qed.

Lemma dbInit_exec w :
  exec dbInit w =
  exec (ensure_slots (Z.to_nat SLOT_COUNT) 1) (count_query (count_query w)).
Proof. exact (dbInit_exec_from (Z.to_nat SLOT_COUNT) w). Qed.

Lemma dbInit_table_ok w :
  table_ok (fridge_slots w) → table_ok (fridge_slots (exec dbInit w)).
Proof.
  intros Hok. rewrite dbInit_exec. apply ensure_slots_table_ok, Hok.
Qed.

Lemma upsertPanelMessage_slots v w :
  fridge_slots (exec (upsertPanelMessage v) w) =
  if panel_channel w then fridge_slots (exec freeExpiredSlots w) else fridge_slots w.
Proof.
  unfold exec, upsertPanelMessage, bind, gets. simpl.
  destruct (panel_channel w); [|done]. simpl.
  destruct (truthy _); simpl.
  - unfold messages_fetch, gets; simpl. destruct (bool_decide _); simpl; [done|].
    unfold channel_send; simpl. by destruct (incoming_ids w).
  - unfold channel_send; simpl. by destruct (incoming_ids w).
Qed.

Lemma step_table_ok w w' :
  step w w' → table_ok (fridge_slots w) → table_ok (fridge_slots w').
Proof.
  intros Hstep Hok. destruct Hstep as [w|w|w s u n Hu|w s u|w v|w w' Heq].
  - by apply dbInit_table_ok.
  - rewrite freeExpiredSlots_slots. apply table_ok_update; auto using row_ok_clear.
  - rewrite reserveSlot_slots. apply table_ok_update; [done| |done].
    intros r. unfold row_ok; simpl. split; [done|by eexists].
  - rewrite releaseSpecificSlot_slots. apply table_ok_update; auto using row_ok_clear.
  - rewrite upsertPanelMessage_slots. destruct (panel_channel w); [|done].
    rewrite freeExpiredSlots_slots. apply table_ok_update; auto using row_ok_clear.
  - by rewrite Heq.
Qed.

Lemma steps_table_ok w w' :
  rtc step w w' → table_ok (fridge_slots w) → table_ok (fridge_slots w').
Proof.
  induction 1 as [w|w1 w2 w3 Hstep _ IH]; [done|].
  intros Hok. apply IH. by apply (step_table_ok w1).
Qed.

Lemma reachable_table_ok w : reachable w → table_ok (fridge_slots w).
Proof.
  intros (w0 & Hw0 & Hsteps). apply (steps_table_ok w0); [done|].
  rewrite Hw0. split; constructor.
Qed.

Lemma reachable_step w w' : reachable w → step w w' → reachable w'.
Proof.
  intros (w0 & Hw0 & Hsteps) Hstep. exists w0. split; [done|].
  by eapply rtc_r.
Qed.

Lemma reachable_fresh : reachable fresh_world.
Proof. exists fresh_world. split; [done|apply rtc_refl]. Qed.

(** ** Who holds what *)

Lemma reserve_cond_true s r :
  reserve_cond s r = true ↔ slot_no r = s ∧ reserved_by_id r = None.
Proof.
  unfold reserve_cond, is_null. rewrite andb_true_iff, Z.eqb_eq.
  destruct (reserved_by_id r); split; intros [? ?]; done.
Qed.

Lemma release_cond_true s u r :
  release_cond s u r = true ↔ slot_no r = s ∧ reserved_by_id r = Some u.
Proof.
  unfold release_cond. by rewrite andb_true_iff, Z.eqb_eq, bool_decide_eq_true.
Qed.

Lemma free_slot_filter w s :
  free_slot w s ↔ List.filter (reserve_cond s) (fridge_slots w) ≠ [].
Proof.
  split.
  - intros (r & Hr & Hs & Hid) Hnil.
    rewrite filter_nil_iff in Hnil. specialize (Hnil r Hr).
    assert (reserve_cond s r = true) by by apply reserve_cond_true.
    congruence.
  - intros Hne. destruct (List.filter _ _) as [|r l] eqn:Hf; [done|].
    assert (r ∈ List.filter (reserve_cond s) (fridge_slots w)) as Hr
      by (rewrite Hf; apply list_elem_of_here).
    apply filter_elem_of in Hr as [Hr Hc]. apply reserve_cond_true in Hc as [? ?].
    by exists r.
Qed.

Lemma holds_filter w s u :
  holds w s u ↔ List.filter (release_cond s u) (fridge_slots w) ≠ [].
Proof.
  split.
  - intros (r & Hr & Hs & Hid) Hnil.
    rewrite filter_nil_iff in Hnil. specialize (Hnil r Hr).
    assert (release_cond s u r = true) by by apply release_cond_true.
    congruence.
  - intros Hne. destruct (List.filter _ _) as [|r l] eqn:Hf; [done|].
    assert (r ∈ List.filter (release_cond s u) (fridge_slots w)) as Hr
      by (rewrite Hf; apply list_elem_of_here).
    apply filter_elem_of in Hr as [Hr Hc]. apply release_cond_true in Hc as [? ?].
    by exists r.
Qed.

(** Under the primary key the claim's [rowCount] is 0 or 1, and it is 1
    exactly when the slot is free. *)
Lemma reserveSlot_true_iff w s u n :
  NoDup (slot_no <$> fridge_slots w) →
  eval (reserveSlot s u n) w = Ok true ↔ free_slot w s.
Proof.
  intros Hnd. rewrite reserveSlot_eval, free_slot_filter.
  pose proof (filter_primary_key (reserve_cond s) s (fridge_slots w) Hnd) as Hle.
  assert (∀ r, reserve_cond s r = true → slot_no r = s) as Hkey
    by (intros r Hr; by apply reserve_cond_true in Hr as [? ?]).
  specialize (Hle Hkey). destruct (List.filter _ _) as [|r l]; simpl in *.
  - split; [|done]. intros [= H].
  - split; [done|]. intros _. f_equal. apply bool_decide_eq_true.
    destruct l; simpl in *; [done|lia].
Qed.

Lemma reserveSlot_false_iff w s u n :
  NoDup (slot_no <$> fridge_slots w) →
  eval (reserveSlot s u n) w = Ok false ↔ ¬ free_slot w s.
Proof.
  intros Hok. rewrite <- (reserveSlot_true_iff w s u n Hok), reserveSlot_eval.
  destruct (bool_decide _); split; congruence.
Qed.

Lemma reserveSlot_not_free_slots w s u n :
  ¬ free_slot w s → fridge_slots (exec (reserveSlot s u n) w) = fridge_slots w.
Proof.
  intros Hnf. rewrite reserveSlot_slots. apply sql_update_none.
  destruct (List.filter _ _) eqn:Hf; [done|]. exfalso. apply Hnf.
  apply free_slot_filter. by rewrite Hf.
Qed.

(** After a claim of [s], successful or not, no row of [s] is free. *)
Lemma reserveSlot_not_free_after w s u n :
  ¬ free_slot (exec (reserveSlot s u n) w) s.
Proof.
  intros (r' & Hr' & Hs & Hid). rewrite reserveSlot_slots in Hr'.
  apply sql_update_elem_of in Hr' as (r & Hr & ->).
  destruct (reserve_cond s r) eqn:Hc; simpl in *; [done|].
  assert (reserve_cond s r = true) by by apply reserve_cond_true. congruence.
Qed.

Lemma reserveSlot_holds w s u n :
  free_slot w s → holds (exec (reserveSlot s u n) w) s u.
Proof.
  intros (r & Hr & Hs & Hid).
  exists (Slot (slot_no r) (Some u) (Some n) (Some (db_now w))
               (Some (js_now w + RESERVE_HOURS * 60 * 60 * 1000))).
  split; [|done]. rewrite reserveSlot_slots. apply sql_update_elem_of.
  exists r. split; [done|].
  assert (reserve_cond s r = true) as -> by by apply reserve_cond_true. done.
Qed.

Lemma reserveSlot_keeps_holds w s u n s' u' :
  holds w s' u' → holds (exec (reserveSlot s u n) w) s' u'.
Proof.
  intros (r & Hr & Hs & Hid). exists r. split; [|done].
  rewrite reserveSlot_slots. apply sql_update_elem_of. exists r. split; [done|].
  destruct (reserve_cond s r) eqn:Hc; [|done].
  apply reserve_cond_true in Hc as [_ Hc]. congruence.
Qed.

Lemma primary_key_unique rows r1 r2 :
  NoDup (slot_no <$> rows) → r1 ∈ rows → r2 ∈ rows →
  slot_no r1 = slot_no r2 → r1 = r2.
Proof.
  induction rows as [|x rows IH]; intros Hnd H1 H2 Heq.
  - by apply elem_of_nil in H1.
  - apply NoDup_cons in Hnd as [Hx Hnd]. fold (fmap slot_no rows) in Hx, Hnd.
    apply elem_of_cons in H1 as [->|H1]; apply elem_of_cons in H2 as [->|H2].
    + done.
    + exfalso. apply Hx. rewrite Heq. apply list_elem_of_fmap. by exists r2.
    + exfalso. apply Hx. rewrite <- Heq. apply list_elem_of_fmap. by exists r1.
    + by apply IH.
Qed.

(** ** Sweeping and then claiming *)

Lemma freeExpiredSlots_elem_of w r' :
  r' ∈ fridge_slots (exec freeExpiredSlots w) ↔
  ∃ r, r ∈ fridge_slots w ∧
       r' = (if expired_at (db_now w) r then clear_slot r else r).
Proof. rewrite freeExpiredSlots_slots. apply sql_update_elem_of. Qed.

Lemma freeExpiredSlots_keys w :
  slot_no <$> fridge_slots (exec freeExpiredSlots w) = slot_no <$> fridge_slots w.
Proof. rewrite freeExpiredSlots_slots. by apply sql_update_slot_no. Qed.

Lemma reserveSlot_keys s u n w :
  slot_no <$> fridge_slots (exec (reserveSlot s u n) w) = slot_no <$> fridge_slots w.
Proof. rewrite reserveSlot_slots. by apply sql_update_slot_no. Qed.

Lemma eval_after_sweep {A} (m : M A) w :
  eval (do! freeExpiredSlots in m) w = eval m (exec freeExpiredSlots w).
Proof. reflexivity. Qed.

Lemma exec_after_sweep {A} (m : M A) w :
  exec (do! freeExpiredSlots in m) w = exec m (exec freeExpiredSlots w).
Proof. reflexivity. Qed.

(** A lease taken at [w] is still there after a sweep at a time [db']
    before its expiry. *)
Lemma lease_survives_sweep w s u n db' js' :
  NoDup (slot_no <$> fridge_slots w) →
  free_slot w s →
  db' < js_now w + RESERVE_HOURS * 60 * 60 * 1000 →
  let w1 := set_clocks db' js' (exec (reserveSlot s u n) w) in
  ¬ free_slot (exec freeExpiredSlots w1) s ∧
  holds (exec freeExpiredSlots w1) s u.
Proof.
  intros Hnd (r0 & Hr0 & Hs0 & Hid0) Hlt w1.
  assert (reserve_cond s r0 = true) as Hc0 by by apply reserve_cond_true.
  set (lease := Slot (slot_no r0) (Some u) (Some n) (Some (db_now w))
                     (Some (js_now w + RESERVE_HOURS * 60 * 60 * 1000))).
  assert (expired_at db' lease = false) as Hlive.
  { unfold expired_at, lease; simpl. apply Z.leb_gt. exact Hlt. }
  split.
  - intros (r2 & Hr2 & Hs2 & Hid2).
    apply freeExpiredSlots_elem_of in Hr2 as (r1 & Hr1 & ->).
    change (fridge_slots w1) with (fridge_slots (exec (reserveSlot s u n) w)) in Hr1.
    change (db_now w1) with db' in Hs2, Hid2.
    rewrite reserveSlot_slots in Hr1.
    apply sql_update_elem_of in Hr1 as (r & Hr & ->).
    assert (slot_no r = s) as Hs.
    { destruct (reserve_cond s r);
        [destruct (expired_at db' _)|destruct (expired_at db' r)]; exact Hs2. }
    assert (r = r0) as -> by (apply (primary_key_unique (fridge_slots w)); congruence).
    rewrite Hc0 in Hid2. fold lease in Hid2. by rewrite Hlive in Hid2.
  - exists lease. split; [|by rewrite <- Hs0].
    apply freeExpiredSlots_elem_of. exists lease.
    change (db_now w1) with db'. rewrite Hlive. split; [|done].
    change (fridge_slots w1) with (fridge_slots (exec (reserveSlot s u n) w)).
    rewrite reserveSlot_slots. apply sql_update_elem_of. exists r0.
    by rewrite Hc0.
Qed.

(** C1. In every reachable state a claim [reserveSlot s u1] succeeds
    exactly when slot [s] has a null holder at the moment of the conditional
    update, and a claim that fails leaves every row as it was. A second
    claim of [s], by any [u2], made before the lease expires, at once or
    through the handler's sweep, returns alreadyHeld and changes nothing:
    of two claims of a free slot exactly one succeeds, the first, and [u1]
    remains the holder. *)
Theorem reserveSlot_at_most_one_winner w s u1 n1 u2 n2 db' js' :
  reachable w →
  db' < js_now w + RESERVE_HOURS * 60 * 60 * 1000 →
  let first := reserveSlot s u1 n1 in
  let second := reserveSlot s u2 n2 in
  let w1 := set_clocks db' js' (exec first w) in
  (eval first w = Ok true ↔ free_slot w s) ∧
  (eval first w = Ok false ↔ ¬ free_slot w s) ∧
  (eval first w = Ok false → fridge_slots (exec first w) = fridge_slots w) ∧
  eval second w1 = Ok false ∧
  fridge_slots (exec second w1) = fridge_slots w1 ∧
  (eval first w = Ok true →
     eval (do! freeExpiredSlots in second) w1 = Ok false ∧
     fridge_slots (exec (do! freeExpiredSlots in second) w1) =
       fridge_slots (exec freeExpiredSlots w1) ∧
     holds w1 s u1 ∧
     holds (exec (do! freeExpiredSlots in second) w1) s u1).
Proof.
  intros Hreach Hlt first second w1.
  destruct (reachable_table_ok w Hreach) as [Hok _].
  assert (NoDup (slot_no <$> fridge_slots w1)) as Hok1.
  { change (fridge_slots w1) with (fridge_slots (exec first w)).
    unfold first. by rewrite reserveSlot_keys. }
  assert (¬ free_slot w1 s) as Hheld1 by apply reserveSlot_not_free_after.
  split; [by apply reserveSlot_true_iff|].
  split; [by apply reserveSlot_false_iff|].
  split.
  { intros Hfail. apply reserveSlot_not_free_slots.
    by apply (reserveSlot_false_iff w s u1 n1). }
  split; [by apply reserveSlot_false_iff|].
  split; [by apply reserveSlot_not_free_slots|].
  intros Hwin. apply (reserveSlot_true_iff w s u1 n1 Hok) in Hwin.
  destruct (lease_survives_sweep w s u1 n1 db' js' Hok Hwin Hlt) as [Hheld2 Hholds].
  fold first w1 in Hheld2, Hholds.
  rewrite eval_after_sweep, exec_after_sweep.
  split; [apply reserveSlot_false_iff; [by rewrite freeExpiredSlots_keys|done]|].
  split; [by apply reserveSlot_not_free_slots|].
  split; [by apply (reserveSlot_holds w s u1 n1)|].
  by apply reserveSlot_keeps_holds.
Qed.

Lemma reachable_started : reachable started_world.
Proof. apply (reachable_step fresh_world); [apply reachable_fresh|apply step_dbInit]. Qed.

Lemma started_slot_1_free : free_slot started_world 1.
Proof.
  exists (Slot 1 None None None None). split; [|done].
  vm_compute. apply list_elem_of_here.
Qed.

Lemma reserveSlot_at_most_one_winner_witness :
  eval (reserveSlot 1 "alice" "Alice") started_world = Ok true ∧
  eval (do! freeExpiredSlots in reserveSlot 1 "bob" "Bob")
       (set_clocks 1000 1000 (exec (reserveSlot 1 "alice" "Alice") started_world))
    = Ok false.
Proof.
  assert (1000 < js_now started_world + RESERVE_HOURS * 60 * 60 * 1000) as Hlt
    by (vm_compute; reflexivity).
  destruct (reserveSlot_at_most_one_winner started_world 1 "alice" "Alice"
              "bob" "Bob" 1000 1000 reachable_started Hlt)
    as (Hiff & _ & _ & _ & _ & Hwin).
  assert (eval (reserveSlot 1 "alice" "Alice") started_world = Ok true) as Hfirst
    by (apply Hiff, started_slot_1_free).
  split; [exact Hfirst|]. apply (Hwin Hfirst).
Defined.

Lemma reachable_carol : reachable carol_world.
Proof.
  apply (reachable_step started_world); [apply reachable_started|].
  by apply step_reserveSlot.
Qed.

(** C10. A claim has no quota: a user who already holds a slot [s0] and
    claims another slot [s] whose holder is null succeeds, and then holds
    both (and every slot held before). *)
Theorem reserveSlot_no_quota w s0 s u n :
  reachable w →
  holds w s0 u →
  free_slot w s →
  let w' := exec (reserveSlot s u n) w in
  eval (reserveSlot s u n) w = Ok true ∧
  s0 ≠ s ∧ holds w' s0 u ∧ holds w' s u ∧
  (∀ s' u', holds w s' u' → holds w' s' u').
Proof.
  intros Hreach Hheld Hfree w'.
  destruct (reachable_table_ok w Hreach) as [Hnd _].
  split; [by apply reserveSlot_true_iff|].
  split.
  { intros ->. destruct Hheld as (r1 & Hr1 & Hs1 & Hid1).
    destruct Hfree as (r2 & Hr2 & Hs2 & Hid2).
    assert (r1 = r2) by (apply (primary_key_unique (fridge_slots w)); congruence).
    congruence. }
  split; [by apply reserveSlot_keeps_holds|].
  split; [by apply reserveSlot_holds|].
  intros s' u' H. by apply reserveSlot_keeps_holds.
Qed.

Lemma started_slot_2_free : free_slot started_world 2.
Proof.
  exists (Slot 2 None None None None). split; [|done].
  vm_compute. apply list_elem_of_further, list_elem_of_here.
Qed.

Lemma reserveSlot_no_quota_witness :
  eval (reserveSlot 2 "carol" "Carol") carol_world = Ok true ∧
  holds (exec (reserveSlot 2 "carol" "Carol") carol_world) 1 "carol" ∧
  holds (exec (reserveSlot 2 "carol" "Carol") carol_world) 2 "carol".
Proof.
  assert (holds carol_world 1 "carol") as Hheld
    by exact (reserveSlot_holds _ _ _ _ started_slot_1_free).
  assert (free_slot carol_world 2) as Hfree.
  { destruct started_slot_2_free as (r & Hr & Hs & Hid). exists r.
    split; [|done]. unfold carol_world. rewrite reserveSlot_slots.
    apply sql_update_elem_of. exists r. split; [done|].
    destruct (reserve_cond 1 r) eqn:Hc; [|done].
    apply reserve_cond_true in Hc as [Hc _]. congruence. }
  destruct (reserveSlot_no_quota carol_world 1 2 "carol" "Carol"
              reachable_carol Hheld Hfree) as (Hok & _ & H1 & H2 & _).
  auto.
Defined.

(** C2. [releaseSpecificSlot s u] returns the slot number [s] exactly when
    [u] is the holder of [s], and then [u] no longer holds it; when the slot
    is free, held by someone else or absent it returns null and no row
    changes. *)
Theorem releaseSpecificSlot_iff_holder w s u :
  let w' := exec (releaseSpecificSlot s u) w in
  (eval (releaseSpecificSlot s u) w = Ok (Some s) ↔ holds w s u) ∧
  (eval (releaseSpecificSlot s u) w = Ok None ↔ ¬ holds w s u) ∧
  (¬ holds w s u → fridge_slots w' = fridge_slots w) ∧
  ¬ holds w' s u ∧
  (∀ r, r ∈ fridge_slots w → slot_no r = s → reserved_by_id r = Some u →
        clear_slot r ∈ fridge_slots w').
Proof.
  intros w'. rewrite releaseSpecificSlot_eval, holds_filter.
  assert (∀ r l, List.filter (release_cond s u) (fridge_slots w) = r :: l →
                 slot_no r = s) as Hhead.
  { intros r l Hf.
    assert (r ∈ List.filter (release_cond s u) (fridge_slots w)) as Hr
      by (rewrite Hf; apply list_elem_of_here).
    apply filter_elem_of in Hr as [_ Hc]. by apply release_cond_true in Hc as [? _]. }
  split; [|split; [|split; [|split]]].
  - destruct (List.filter _ _) as [|r l] eqn:Hf; simpl.
    + split; [discriminate|done].
    + split; [done|]. intros _. by rewrite (Hhead r l).
  - destruct (List.filter _ _) as [|r l] eqn:Hf; simpl.
    + split; [intros _ H; by apply H|done].
    + split; [discriminate|]. intros H. exfalso. by apply H.
  - intros Hno. unfold w'. rewrite releaseSpecificSlot_slots.
    apply sql_update_none. destruct (List.filter _ _); [done|].
    exfalso. by apply Hno.
  - intros (r' & Hr' & Hs & Hid). unfold w' in Hr'.
    rewrite releaseSpecificSlot_slots in Hr'.
    apply sql_update_elem_of in Hr' as (r & Hr & ->).
    destruct (release_cond s u r) eqn:Hc; [done|].
    assert (release_cond s u r = true) by by apply release_cond_true.
    congruence.
  - intros r Hr Hs Hid. unfold w'. rewrite releaseSpecificSlot_slots.
    apply sql_update_elem_of. exists r. split; [done|].
    assert (release_cond s u r = true) as -> by by apply release_cond_true.
    done.
Qed.

(** ** The sweep *)

Lemma expired_at_true now r : expired_at now r = true ↔ lease_over now r.
Proof.
  unfold expired_at, lease_over. destruct (ends_at r) as [e|].
  - rewrite Z.leb_le. split; [intros H; by exists e|by intros (? & [= <-] & ?)].
  - split; [done|by intros (? & ? & ?)].
Qed.

Lemma expired_at_false now r : expired_at now r = false ↔ ¬ lease_over now r.
Proof.
  rewrite <- expired_at_true. destruct (expired_at now r); split; congruence.
Qed.

Lemma sweep_row_twice now later r :
  now ≤ later →
  let sweep t x := if expired_at t x then clear_slot x else x in
  sweep later (sweep now r) = sweep later r.
Proof.
  intros Hle sweep. unfold sweep.
  destruct (expired_at now r) eqn:Hnow; [|done].
  assert (expired_at later r = true) as ->.
  { apply expired_at_true. apply expired_at_true in Hnow as (e & ? & ?).
    exists e. split; [done|lia]. }
  done.
Qed.

Lemma freeExpiredSlots_twice w db js :
  db_now w ≤ db →
  fridge_slots (exec freeExpiredSlots (set_clocks db js (exec freeExpiredSlots w))) =
  fridge_slots (exec freeExpiredSlots (set_clocks db js w)).
Proof.
  intros Hle. rewrite !freeExpiredSlots_slots.
  change (db_now (set_clocks db js _)) with db.
  change (fridge_slots (set_clocks db js (exec freeExpiredSlots w)))
    with (fridge_slots (exec freeExpiredSlots w)).
  change (fridge_slots (set_clocks db js w)) with (fridge_slots w).
  rewrite freeExpiredSlots_slots, !sql_update_rows, <- list_fmap_compose.
  apply list_fmap_ext. intros _ r _. by apply sweep_row_twice.
Qed.

(** C3. In every reachable state [freeExpiredSlots] returns normally, and
    right after it every row is either free, with its four mutable fields
    null, or leased with [ends_at] strictly after the time of the sweep. It
    clears exactly the rows whose [ends_at] is at or before that time and
    leaves the others as they were; with nothing to sweep the table is
    unchanged; and sweeping again, at the same or at a later time, gives what
    one sweep at that time gives. *)
Theorem freeExpiredSlots_sweeps_exactly_expired w :
  reachable w →
  let w' := exec freeExpiredSlots w in
  eval freeExpiredSlots w = Ok tt ∧
  (∀ r, r ∈ fridge_slots w' →
     (reserved_by_id r = None ∧ reserved_by_name r = None ∧
      reserved_at r = None ∧ ends_at r = None) ∨
     (∃ u e, reserved_by_id r = Some u ∧ ends_at r = Some e ∧ db_now w < e)) ∧
  length (fridge_slots w') = length (fridge_slots w) ∧
  (∀ i r, fridge_slots w !! i = Some r →
     (lease_over (db_now w) r →
        fridge_slots w' !! i = Some (Slot (slot_no r) None None None None)) ∧
     (¬ lease_over (db_now w) r → fridge_slots w' !! i = Some r)) ∧
  ((∀ r, r ∈ fridge_slots w → ¬ lease_over (db_now w) r) →
     fridge_slots w' = fridge_slots w) ∧
  fridge_slots (exec freeExpiredSlots w') = fridge_slots w' ∧
  (∀ db js, db_now w ≤ db →
     fridge_slots (exec freeExpiredSlots (set_clocks db js w')) =
     fridge_slots (exec freeExpiredSlots (set_clocks db js w))).
Proof.
  intros Hreach w'. destruct (reachable_table_ok w Hreach) as [_ Hrows].
  split; [reflexivity|]. split; [|split; [|split; [|split; [|split]]]].
  - intros r' Hr'. apply freeExpiredSlots_elem_of in Hr' as (r & Hr & ->).
    destruct (expired_at (db_now w) r) eqn:Hexp; [by left|].
    rewrite Forall_forall in Hrows. specialize (Hrows r Hr).
    unfold row_ok in Hrows. destruct (reserved_by_id r) as [u|] eqn:Hid.
    + right. destruct Hrows as [_ [e He]]. exists u, e. split; [done|].
      split; [done|]. unfold expired_at in Hexp. rewrite He in Hexp.
      by apply Z.leb_gt.
    + by left.
  - unfold w'. by rewrite freeExpiredSlots_slots, sql_update_rows, length_fmap.
  - intros i r Hi. unfold w'. rewrite freeExpiredSlots_slots.
    rewrite (sql_update_lookup _ _ _ _ _ Hi). split.
    + intros Hover. apply expired_at_true in Hover. by rewrite Hover.
    + intros Hlive. apply expired_at_false in Hlive. by rewrite Hlive.
  - intros Hnone. unfold w'. rewrite freeExpiredSlots_slots.
    apply sql_update_none, filter_nil_iff. intros r Hr.
    by apply expired_at_false, Hnone.
  - pose proof (freeExpiredSlots_twice w (db_now w) (js_now w) (Z.le_refl _)) as H.
    exact H.
  - intros db js Hle. by apply freeExpiredSlots_twice.
Qed.

Lemma reachable_expired : reachable expired_world.
Proof.
  apply (reachable_step carol_world); [apply reachable_carol|].
  by apply step_other.
Qed.

Lemma freeExpiredSlots_sweeps_exactly_expired_witness :
  eval freeExpiredSlots expired_world = Ok tt ∧
  fridge_slots (exec freeExpiredSlots (exec freeExpiredSlots expired_world)) =
  fridge_slots (exec freeExpiredSlots expired_world).
Proof.
  destruct (freeExpiredSlots_sweeps_exactly_expired expired_world reachable_expired)
    as (Hret & _ & _ & _ & _ & Hidem & _).
  exact (conj Hret Hidem).
Defined.

(** ** The listings *)

Lemma order_by_slot_no_elem_of r rows : r ∈ order_by_slot_no rows ↔ r ∈ rows.
Proof. unfold order_by_slot_no. by rewrite merge_sort_Permutation. Qed.

Lemma getUserReservedSlots_elem_of u w s e :
  (∃ mine, eval (getUserReservedSlots u) w = Ok mine ∧
     ((s, e) ∈ mine ↔
      ∃ r, r ∈ fridge_slots w ∧ slot_no r = s ∧ ends_at r = e ∧
           reserved_by_id r = Some u)).
Proof.
  eexists. split; [reflexivity|]. rewrite list_elem_of_fmap. split.
  - intros (r & [= -> ->] & Hr). rewrite order_by_slot_no_elem_of in Hr.
    apply filter_elem_of in Hr as [Hr Hid]. apply bool_decide_eq_true in Hid.
    by exists r.
  - intros (r & Hr & <- & <- & Hid). exists r. split; [done|].
    apply order_by_slot_no_elem_of, filter_elem_of. split; [done|].
    by apply bool_decide_eq_true.
Qed.

(** C4, as stated, fails: [getUserReservedSlots] has no expiry condition.
    With carol's lease over (it ended at 28 800 000, it is 32 400 000) and
    no sweep since, her slot is still listed as held by her, and the filter
    of the free-slot listing still leaves it out. *)
Lemma getUserReservedSlots_lists_expired :
  reachable expired_world ∧
  db_now expired_world = 32400000 ∧
  eval (getUserReservedSlots "carol") expired_world = Ok [(1, Some 28800000)] ∧
  existsb (λ s, slot_no s =? 1)
    (List.filter (λ s, negb (truthy (reserved_by_id s)))
                 (order_by_slot_no (fridge_slots expired_world))) = false.
Proof.
  split; [apply reachable_expired|]. repeat split; vm_compute; reflexivity.
Qed.

(** C4 (amended). [getUserReservedSlots u] returns the rows whose
    [reserved_by_id] is [u], whatever their [ends_at]. The two read paths
    that feed a decision sweep first: after [freeExpiredSlots], as the
    release button runs it, the listing holds exactly the slots held by [u]
    whose [ends_at] is after the time of the sweep; and the free slots the
    reserve button keeps from [getSlots] are exactly the slots whose holder
    is null or whose [ends_at] is at or before that time. *)
Theorem listings_follow_the_sweep w u :
  reachable w →
  (∃ mine, eval (getUserReservedSlots u) w = Ok mine ∧
     ∀ s e, (s, e) ∈ mine ↔
       ∃ r, r ∈ fridge_slots w ∧ slot_no r = s ∧ ends_at r = e ∧
            reserved_by_id r = Some u) ∧
  (∃ mine, eval (do! freeExpiredSlots in getUserReservedSlots u) w = Ok mine ∧
     ∀ s e, (s, e) ∈ mine ↔
       ∃ r t, r ∈ fridge_slots w ∧ slot_no r = s ∧ reserved_by_id r = Some u ∧
              ends_at r = Some t ∧ e = Some t ∧ db_now w < t) ∧
  (∃ slots, eval (do! freeExpiredSlots in getSlots) w = Ok slots ∧
     ∀ s, s ∈ slot_no <$> List.filter (λ r, negb (truthy (reserved_by_id r))) slots ↔
       ∃ r, r ∈ fridge_slots w ∧ slot_no r = s ∧
            (reserved_by_id r = None ∨ lease_over (db_now w) r)).
Proof.
  intros Hreach. destruct (reachable_table_ok w Hreach) as [_ Hrows].
  rewrite Forall_forall in Hrows. split; [|split].
  - eexists. split; [reflexivity|]. intros s e.
    destruct (getUserReservedSlots_elem_of u w s e) as (mine & [= <-] & H).
    exact H.
  - rewrite eval_after_sweep. eexists. split; [reflexivity|]. intros s e.
    destruct (getUserReservedSlots_elem_of u (exec freeExpiredSlots w) s e)
      as (mine & [= <-] & ->).
    split.
    + intros (r' & Hr' & Hs & He & Hid).
      apply freeExpiredSlots_elem_of in Hr' as (r & Hr & ->).
      destruct (expired_at (db_now w) r) eqn:Hexp; [done|].
      specialize (Hrows r Hr). unfold row_ok in Hrows. rewrite Hid in Hrows.
      destruct Hrows as [_ [t Ht]]. exists r, t.
      repeat split; [done..|congruence|].
      unfold expired_at in Hexp. rewrite Ht in Hexp. by apply Z.leb_gt.
    + intros (r & t & Hr & Hs & Hid & Ht & -> & Hlt).
      exists r. repeat split; [|done..].
      apply freeExpiredSlots_elem_of. exists r. split; [done|].
      assert (expired_at (db_now w) r = false) as ->; [|done].
      unfold expired_at. rewrite Ht. by apply Z.leb_gt.
  - rewrite eval_after_sweep. eexists. split; [reflexivity|]. intros s.
    rewrite list_elem_of_fmap. split.
    + intros (r' & -> & Hr'). apply filter_elem_of in Hr' as [Hr' Hfalsy].
      rewrite order_by_slot_no_elem_of in Hr'.
      change (fridge_slots (count_query (exec freeExpiredSlots w)))
        with (fridge_slots (exec freeExpiredSlots w)) in Hr'.
      apply freeExpiredSlots_elem_of in Hr' as (r & Hr & ->).
      exists r. split; [done|].
      destruct (expired_at (db_now w) r) eqn:Hexp.
      * split; [done|]. right. by apply expired_at_true.
      * split; [done|]. left. specialize (Hrows r Hr). unfold row_ok in Hrows.
        destruct (reserved_by_id r) as [u'|]; [|done].
        destruct Hrows as [Hne _]. simpl in Hfalsy.
        apply negb_true_iff, bool_decide_eq_false in Hfalsy. by destruct Hfalsy.
    + intros (r & Hr & <- & Hfree).
      exists (if expired_at (db_now w) r then clear_slot r else r).
      split; [by destruct (expired_at _ r)|].
      apply filter_elem_of. split.
      * apply order_by_slot_no_elem_of.
        change (fridge_slots (count_query (exec freeExpiredSlots w)))
          with (fridge_slots (exec freeExpiredSlots w)).
        apply freeExpiredSlots_elem_of. by exists r.
      * destruct (expired_at (db_now w) r) eqn:Hexp; [done|].
        destruct Hfree as [->|Hover]; [done|].
        apply expired_at_true in Hover. congruence.
Qed.

Lemma listings_follow_the_sweep_witness :
  ∃ mine, eval (do! freeExpiredSlots in getUserReservedSlots "carol") expired_world
          = Ok mine ∧
          ∀ s e, (s, e) ∈ mine ↔
            ∃ r t, r ∈ fridge_slots expired_world ∧ slot_no r = s ∧
                   reserved_by_id r = Some "carol" ∧
                   ends_at r = Some t ∧ e = Some t ∧ db_now expired_world < t.
Proof.
  destruct (listings_follow_the_sweep expired_world "carol" reachable_expired)
    as (_ & H & _).
  exact H.
Defined.

(** ** The remaining time *)

(** C6, as stated, fails: with less than a minute left the minute count is
    zero, and the minutes clause is rendered all the same. *)
Lemma humanRemaining_zero_minutes_rendered :
  0 < 30000 ∧ Z.rem (30000 / 60000) 60 = 0 ∧
  humanRemaining 30000 = "peste 0 minute".
Proof. repeat split; vm_compute; reflexivity. Qed.

(** C6 (amended). For a remaining time [ms], with [h] its whole hours and
    [m] the minutes beyond them: a delta of zero or less renders the expired
    marker; a positive delta renders the minutes alone when [h] is zero (also
    when [m] is zero, as "0 minute"), the hours alone when [h] is positive
    and [m] is zero, and hours and minutes otherwise. *)
Theorem humanRemaining_cases ms :
  let h := ms / 60000 / 60 in
  let m := Z.rem (ms / 60000) 60 in
  (ms ≤ 0 → humanRemaining ms = "expirat") ∧
  (0 < ms → 0 ≤ h ∧ 0 ≤ m < 60) ∧
  (0 < ms → h = 0 →
     humanRemaining ms = "peste " +:+ js_String m +:+ " minute") ∧
  (0 < ms → 0 < h → m = 0 →
     humanRemaining ms = "peste " +:+ js_String h +:+ " ore") ∧
  (0 < ms → 0 < h → m ≠ 0 →
     humanRemaining ms =
       "peste " +:+ js_String h +:+ " ore " +:+ js_String m +:+ " minute").
Proof.
  intros h m. unfold humanRemaining. fold h m.
  assert (0 < ms → 0 ≤ h ∧ 0 ≤ m < 60) as Hrange.
  { intros Hpos. assert (0 ≤ ms / 60000) by (apply Z.div_pos; lia).
    split; [apply Z.div_pos; lia|]. unfold m. rewrite Z.rem_mod_nonneg by lia.
    apply Z.mod_pos_bound. lia. }
  split; [|split; [exact Hrange|split; [|split]]].
  - intros Hle. by rewrite (proj2 (Z.leb_le ms 0) Hle).
  - intros Hpos Hh. rewrite (proj2 (Z.leb_gt ms 0) Hpos).
    by rewrite (proj2 (Z.leb_le h 0)) by lia.
  - intros Hpos Hh Hm. rewrite (proj2 (Z.leb_gt ms 0) Hpos).
    rewrite (proj2 (Z.leb_gt h 0) Hh). by rewrite (proj2 (Z.eqb_eq m 0) Hm).
  - intros Hpos Hh Hm. rewrite (proj2 (Z.leb_gt ms 0) Hpos).
    rewrite (proj2 (Z.leb_gt h 0) Hh). by rewrite (proj2 (Z.eqb_neq m 0) Hm).
Qed.

(** ** The renderer *)

Lemma push_lines now slots lines :
  fold_left (λ lines s, lines ++ [slot_line now s]) slots lines =
  lines ++ (slot_line now <$> slots).
Proof.
  revert lines. induction slots as [|s slots IH]; intros lines; simpl.
  - by rewrite app_nil_r.
  - by rewrite IH, <- app_assoc.
Qed.

Lemma buildPanelEmbed_run v slots w :
  buildPanelEmbed v slots w = (Ok (render_embed v slots (js_now w)), w).
Proof.
  unfold buildPanelEmbed, bind, gets, ret, render_embed, panel_lines.
  by rewrite push_lines.
Qed.

(** C7. [buildPanelEmbed] is a pure function of the slot list and of the
    current time: it returns normally and leaves the world as it was, its
    document is [render_embed] of the slots and the clock reading (one line
    per slot, in the order given, after the four lines of the header), and
    two calls with the same slots at the same time, in whatever worlds,
    give the same document. *)
Theorem buildPanelEmbed_pure v slots :
  (∀ w, eval (buildPanelEmbed v slots) w = Ok (render_embed v slots (js_now w))) ∧
  (∀ w, exec (buildPanelEmbed v slots) w = w) ∧
  (∀ now, length (panel_lines v slots now) = (4 + length slots)%nat) ∧
  (∀ w1 w2, js_now w1 = js_now w2 →
     eval (buildPanelEmbed v slots) w1 = eval (buildPanelEmbed v slots) w2).
Proof.
  split; [|split; [|split]].
  - intros w. unfold eval. by rewrite buildPanelEmbed_run.
  - intros w. unfold exec. by rewrite buildPanelEmbed_run.
  - intros now. unfold panel_lines. by rewrite length_app, length_fmap.
  - intros w1 w2 Hnow. unfold eval. rewrite !buildPanelEmbed_run. simpl.
    by rewrite Hnow.
Qed.

(** ** Publishing the panel *)

Lemma upsertPanelMessage_no_channel v w :
  panel_channel w = false → upsertPanelMessage v w = (Ok tt, w).
Proof.
  intros Hc. unfold upsertPanelMessage. unfold bind at 1. unfold gets at 1.
  by rewrite Hc.
Qed.

(** Up to the test of [messageId]. *)
Lemma upsertPanelMessage_prefix v w :
  panel_channel w = true →
  upsertPanelMessage v w =
  (let doc := rendered v w in
   let create :=
     let! sent := channel_send doc in
     setMeta "panel_message_id" sent in
   if truthy (fridge_meta w !! "panel_message_id") then
     let id := default "" (fridge_meta w !! "panel_message_id") in
     let! msg := messages_fetch id in
     if msg then message_edit id doc else create
   else create) (after_queries w).
Proof.
  intros Hc. unfold upsertPanelMessage. unfold bind at 1. unfold gets at 1.
  rewrite Hc. cbn [negb]. unfold bind at 1.
  change (freeExpiredSlots w) with (Ok tt, exec freeExpiredSlots w).
  cbv beta iota. unfold bind at 1. unfold getSlots at 1. cbv beta iota.
  unfold bind at 1. rewrite buildPanelEmbed_run. cbv beta iota.
  unfold bind at 1. unfold getMeta at 1. cbv beta iota. reflexivity.
Qed.

Lemma upsertPanelMessage_edits v w id :
  panel_channel w = true →
  fridge_meta w !! "panel_message_id" = Some id →
  id ≠ "" →
  is_Some (messages w !! id) →
  upsertPanelMessage v w =
  (Ok tt, set_discord (<[id := rendered v w]> (messages w)) (incoming_ids w)
                      (discord_log w ++ [Edited id]) (after_queries w)).
Proof.
  intros Hc Hmeta Hid Hmsg. rewrite upsertPanelMessage_prefix by done.
  cbv zeta. rewrite Hmeta. cbn [truthy default from_option]. unfold Datatypes.id.
  rewrite bool_decide_true by done.
  unfold bind at 1. unfold messages_fetch, gets. cbv beta.
  change (messages (after_queries w)) with (messages w).
  rewrite bool_decide_true by done. reflexivity.
Qed.

Lemma upsertPanelMessage_sends v w id ids :
  panel_channel w = true →
  (∀ old, fridge_meta w !! "panel_message_id" = Some old → old ≠ "" →
          messages w !! old = None) →
  incoming_ids w = id :: ids →
  upsertPanelMessage v w =
  (Ok tt,
   count_query
     (set_meta (<["panel_message_id" := id]> (fridge_meta w))
        (set_discord (<[id := rendered v w]> (messages w)) ids
                     (discord_log w ++ [Sent id]) (after_queries w)))).
Proof.
  intros Hc Hstale Hids. rewrite upsertPanelMessage_prefix by done.
  cbv zeta.
  assert ((let! sent := channel_send (rendered v w) in
           setMeta "panel_message_id" sent) (after_queries w) =
          (Ok tt,
           count_query
             (set_meta (<["panel_message_id" := id]> (fridge_meta w))
                (set_discord (<[id := rendered v w]> (messages w)) ids
                   (discord_log w ++ [Sent id]) (after_queries w))))) as Hcreate.
  { unfold bind, channel_send.
    change (incoming_ids (after_queries w)) with (incoming_ids w).
    rewrite Hids. reflexivity. }
  destruct (fridge_meta w !! "panel_message_id") as [old|] eqn:Hmeta;
    cbn [truthy default from_option]; unfold Datatypes.id; [|exact Hcreate].
  destruct (bool_decide (old ≠ "")) eqn:Hold; [|exact Hcreate].
  apply bool_decide_eq_true in Hold.
  unfold bind at 1. unfold messages_fetch, gets. cbv beta.
  change (messages (after_queries w)) with (messages w).
  rewrite (Hstale old eq_refl Hold).
  rewrite bool_decide_false by (by intros [? ?]). exact Hcreate.
Qed.

Lemma upsertPanelMessage_send_fails v w :
  panel_channel w = true →
  (∀ old, fridge_meta w !! "panel_message_id" = Some old → old ≠ "" →
          messages w !! old = None) →
  incoming_ids w = [] →
  eval (upsertPanelMessage v) w = Throw (DiscordAPIError "send").
Proof.
  intros Hc Hstale Hids. unfold eval. rewrite upsertPanelMessage_prefix by done.
  cbv zeta.
  assert (((let! sent := channel_send (rendered v w) in
            setMeta "panel_message_id" sent) (after_queries w)).1 =
          Throw (DiscordAPIError "send")) as Hcreate.
  { unfold bind, channel_send.
    change (incoming_ids (after_queries w)) with (incoming_ids w).
    rewrite Hids. reflexivity. }
  destruct (fridge_meta w !! "panel_message_id") as [old|] eqn:Hmeta;
    cbn [truthy default from_option]; unfold Datatypes.id; [|exact Hcreate].
  destruct (bool_decide (old ≠ "")) eqn:Hold; [|exact Hcreate].
  apply bool_decide_eq_true in Hold.
  unfold bind at 1. unfold messages_fetch, gets. cbv beta.
  change (messages (after_queries w)) with (messages w).
  rewrite (Hstale old eq_refl Hold).
  rewrite bool_decide_false by (by intros [? ?]). exact Hcreate.
Qed.

Lemma sweep_rows_twice now rows :
  (sql_update (expired_at now) clear_slot
     (sql_update (expired_at now) clear_slot rows).1).1 =
  (sql_update (expired_at now) clear_slot rows).1.
Proof.
  rewrite !sql_update_rows, <- list_fmap_compose. apply list_fmap_ext.
  intros _ r _. by apply (sweep_row_twice now now r).
Qed.

(** With the clocks and the rows of the sweep unchanged, the same document
    is rendered. *)
Lemma rendered_again v w w1 :
  fridge_slots w1 = fridge_slots (exec freeExpiredSlots w) →
  db_now w1 = db_now w → js_now w1 = js_now w →
  rendered v w1 = rendered v w.
Proof.
  intros Hslots Hdb Hjs. unfold rendered.
  rewrite Hjs, (freeExpiredSlots_slots w1), Hdb, Hslots.
  by rewrite (freeExpiredSlots_slots w), sweep_rows_twice.
Qed.

(** What a call that returns normally leaves behind. *)
Lemma upsertPanelMessage_first v w :
  panel_channel w = true →
  "" ∉ incoming_ids w →
  eval (upsertPanelMessage v) w = Ok tt →
  let w1 := exec (upsertPanelMessage v) w in
  ∃ id, id ≠ "" ∧
        fridge_meta w1 !! "panel_message_id" = Some id ∧
        messages w1 = <[id := rendered v w]> (messages w) ∧
        fridge_slots w1 = fridge_slots (exec freeExpiredSlots w) ∧
        db_now w1 = db_now w ∧ js_now w1 = js_now w ∧
        panel_channel w1 = true.
Proof.
  intros Hc Hids Hok w1.
  assert ((∃ old, fridge_meta w !! "panel_message_id" = Some old ∧ old ≠ "" ∧
                  is_Some (messages w !! old)) ∨
          (∀ old, fridge_meta w !! "panel_message_id" = Some old → old ≠ "" →
                  messages w !! old = None)) as [(old & Hmeta & Hold & Hmsg)|Hstale].
  { destruct (fridge_meta w !! "panel_message_id") as [old|]; [|by right].
    destruct (decide (old = "")) as [->|Hold]; [right; by intros ? [= <-]|].
    destruct (messages w !! old) eqn:Hmsg.
    - left. exists old. by rewrite Hmsg.
    - right. by intros ? [= <-]. }
  - exists old. unfold w1, exec.
    rewrite (upsertPanelMessage_edits v w old) by done. by repeat split.
  - destruct (incoming_ids w) as [|id ids] eqn:Hin.
    + rewrite (upsertPanelMessage_send_fails v w) in Hok by done. discriminate.
    + exists id. unfold w1, exec.
      rewrite (upsertPanelMessage_sends v w id ids) by done.
      split. { intros ->. apply Hids, list_elem_of_here. }
      split; [apply lookup_insert_eq|]. by repeat split.
Qed.

(** C8, as stated, fails: the document shows the time left, so a second
    call a minute later, with no row changed in between, renders another
    document ("peste 7 ore 59 minute" after "peste 8 ore"). *)
Lemma upsertPanelMessage_twice_a_minute_apart :
  let w1 := exec (upsertPanelMessage MultiSlot) carol_world in
  let later := set_clocks 60000 60000 w1 in
  let w2 := exec (upsertPanelMessage MultiSlot) later in
  fridge_slots later = fridge_slots w1 ∧
  fridge_slots w2 = fridge_slots w1 ∧
  slot_line (js_now w1) <$> head (fridge_slots w1) = Some "[01] 🔴 Carol  ⏳ peste 8 ore" ∧
  slot_line (js_now later) <$> head (fridge_slots w1)
    = Some "[01] 🔴 Carol  ⏳ peste 7 ore 59 minute" ∧
  bool_decide (published w1 = published w2) = false.
Proof. repeat split; vm_compute; reflexivity. Qed.

(** C8 (amended). Two calls of [upsertPanelMessage] in a row, with the
    panel channel there, Discord giving no empty message identifier and the
    first call returning normally, with no change in between and at the same
    clock readings: the second returns normally, renders the document the first
    rendered, and edits the message the first published; it sends nothing, so
    the channel has the same messages after it as before it, the stored
    identifier is unchanged, and a channel that was empty before the first
    call holds exactly one message. *)
Theorem upsertPanelMessage_twice v w :
  panel_channel w = true →
  "" ∉ incoming_ids w →
  eval (upsertPanelMessage v) w = Ok tt →
  let w1 := exec (upsertPanelMessage v) w in
  let w2 := exec (upsertPanelMessage v) w1 in
  eval (upsertPanelMessage v) w1 = Ok tt ∧
  rendered v w1 = rendered v w ∧
  (∃ id, fridge_meta w1 !! "panel_message_id" = Some id ∧
         published w1 = Some (rendered v w) ∧
         published w2 = Some (rendered v w1) ∧
         discord_log w2 = discord_log w1 ++ [Edited id]) ∧
  fridge_meta w2 = fridge_meta w1 ∧
  messages w2 = messages w1 ∧
  incoming_ids w2 = incoming_ids w1 ∧
  fridge_slots w2 = fridge_slots w1 ∧
  (messages w = ∅ → size (messages w2) = 1%nat).
Proof.
  intros Hc Hids Hok w1 w2.
  destruct (upsertPanelMessage_first v w Hc Hids Hok)
    as (id & Hid & Hmeta & Hmsgs & Hslots & Hdb & Hjs & Hc1).
  fold w1 in Hmeta, Hmsgs, Hslots, Hdb, Hjs, Hc1.
  assert (rendered v w1 = rendered v w) as Hdoc by by apply rendered_again.
  assert (messages w1 !! id = Some (rendered v w)) as Hlook
    by (rewrite Hmsgs; apply lookup_insert_eq).
  assert (is_Some (messages w1 !! id)) as Hsome by by rewrite Hlook.
  pose proof (upsertPanelMessage_edits v w1 id Hc1 Hmeta Hid Hsome) as Hrun.
  assert (messages w2 = messages w1) as Hsame.
  { unfold w2, exec. rewrite Hrun. simpl. rewrite Hdoc, Hmsgs.
    apply insert_insert_eq. }
  assert (fridge_meta w2 = fridge_meta w1) as Hmeta2
    by (unfold w2, exec; by rewrite Hrun).
  split; [unfold eval; by rewrite Hrun|].
  split; [done|]. split.
  { exists id. split; [done|]. unfold published.
    rewrite Hmeta2, Hmeta, Hsame, Hlook. split; [done|].
    split; [by rewrite Hdoc|]. unfold w2, exec. by rewrite Hrun. }
  split; [done|]. split; [done|].
  split; [unfold w2, exec; by rewrite Hrun|]. split.
  { unfold w2. rewrite upsertPanelMessage_slots, Hc1.
    rewrite (freeExpiredSlots_slots w1), Hdb, Hslots.
    by rewrite (freeExpiredSlots_slots w), sweep_rows_twice. }
  intros Hempty. rewrite Hsame, Hmsgs, Hempty.
  by rewrite insert_empty, map_size_singleton.
Qed.

Lemma upsertPanelMessage_twice_witness :
  eval (upsertPanelMessage MultiSlot) (exec (upsertPanelMessage MultiSlot) carol_world)
    = Ok tt ∧
  messages (exec (upsertPanelMessage MultiSlot)
              (exec (upsertPanelMessage MultiSlot) carol_world)) =
  messages (exec (upsertPanelMessage MultiSlot) carol_world) ∧
  size (messages (exec (upsertPanelMessage MultiSlot)
                    (exec (upsertPanelMessage MultiSlot) carol_world))) = 1%nat.
Proof.
  assert (panel_channel carol_world = true) as Hc by (vm_compute; reflexivity).
  assert ("" ∉ incoming_ids carol_world) as Hids.
  { vm_compute. intros H.
    repeat (apply elem_of_cons in H as [H|H]; [discriminate H|]).
    by apply elem_of_nil in H. }
  assert (eval (upsertPanelMessage MultiSlot) carol_world = Ok tt) as Hok
    by (vm_compute; reflexivity).
  destruct (upsertPanelMessage_twice MultiSlot carol_world Hc Hids Hok)
    as (Hret & _ & _ & _ & Hsame & _ & _ & Hone).
  split; [exact Hret|]. split; [exact Hsame|]. apply Hone.
  vm_compute. reflexivity.
Defined.

(** ** The listeners *)

Lemma slot_invalid_true x :
  slot_invalid x = true ↔ ∀ n, x = Integral n → n < 1 ∨ SLOT_COUNT < n.
Proof.
  destruct x as [n|]; simpl.
  - rewrite orb_true_iff, Z.ltb_lt, Z.gtb_lt. split.
    + by intros H ? [= <-].
    + intros H. by apply H.
  - split; [by intros _ n [=]|done].
Qed.

Lemma rejected_reply w :
  interaction_reply (text "❌ Slot invalid.") (arrival w) =
  (Ok tt, set_interaction true [text "❌ Slot invalid."] (arrival w)).
Proof. reflexivity. Qed.

Lemma multi_pick_slot_invalid Number i values w :
  slot_invalid (picked_number Number values) = true →
  Multi.on_fridge_pick_slot Number i values (arrival w) =
  (Ok tt, set_interaction true [text "❌ Slot invalid."] (arrival w)).
Proof.
  intros Hinv. unfold Multi.on_fridge_pick_slot. cbv zeta. rewrite Hinv.
  apply rejected_reply.
Qed.

Lemma multi_release_pick_invalid Number i values w :
  slot_invalid (picked_number Number values) = true →
  Multi.on_fridge_release_pick Number i values (arrival w) =
  (Ok tt, set_interaction true [text "❌ Slot invalid."] (arrival w)).
Proof.
  intros Hinv. unfold Multi.on_fridge_release_pick. cbv zeta. rewrite Hinv.
  apply rejected_reply.
Qed.

Lemma single_pick_slot_invalid Number i values w :
  slot_invalid (picked_number Number values) = true →
  Single.on_fridge_pick_slot Number i values (arrival w) =
  (Ok tt, set_interaction true [text "❌ Slot invalid."] (arrival w)).
Proof.
  intros Hinv. unfold Single.on_fridge_pick_slot. cbv zeta. rewrite Hinv.
  apply rejected_reply.
Qed.

Lemma multi_listener_run Number i w :
  Multi.on_InteractionCreate Number i w =
  try_catch (Multi.dispatch Number i) (λ _, on_error) (arrival w).
Proof. reflexivity. Qed.

Lemma single_listener_run Number i w :
  Single.on_InteractionCreate Number i w =
  try_catch (Single.dispatch Number i) (λ _, on_error) (arrival w).
Proof. reflexivity. Qed.

Lemma try_catch_ok {A} (m : M A) h w a w' :
  m w = (Ok a, w') → try_catch m h w = (Ok a, w').
Proof. intros H. unfold try_catch. by rewrite H. Qed.

Lemma rejected_untouched_run listener w :
  listener w = (Ok tt, set_interaction true [text "❌ Slot invalid."] (arrival w)) →
  rejected_untouched listener w.
Proof. intros Hrun. unfold rejected_untouched, eval, exec. by rewrite Hrun. Qed.

(** C9. A selection whose value is not an integer from 1 to [SLOT_COUNT]
    (whatever [Number] makes of the string, a missing value included) is
    answered with the invalid-slot message, in the reserve menu and in the
    release menu of the multi-slot variant and in the reserve menu of
    [index.js], before any statement is sent to the database: the count of
    queries, both tables, the channel's messages and the log are as
    before. *)
Theorem invalid_selection_rejected Number u un dn values w :
  (∀ n, picked_number Number values = Integral n → n < 1 ∨ SLOT_COUNT < n) →
  rejected_untouched
    (Multi.on_InteractionCreate Number
       (Interaction (StringSelectMenu "fridge_pick_slot" values) u un dn)) w ∧
  rejected_untouched
    (Multi.on_InteractionCreate Number
       (Interaction (StringSelectMenu "fridge_release_pick" values) u un dn)) w ∧
  rejected_untouched
    (Single.on_InteractionCreate Number
       (Interaction (StringSelectMenu "fridge_pick_slot" values) u un dn)) w.
Proof.
  intros Hbad. apply slot_invalid_true in Hbad.
  split; [|split]; apply rejected_untouched_run.
  - rewrite multi_listener_run. apply try_catch_ok.
    by apply multi_pick_slot_invalid.
  - rewrite multi_listener_run. apply try_catch_ok.
    by apply multi_release_pick_invalid.
  - rewrite single_listener_run. apply try_catch_ok.
    by apply single_pick_slot_invalid.
Qed.

Lemma invalid_selection_rejected_witness :
  rejected_untouched
    (Multi.on_InteractionCreate sample_Number
       (Interaction (StringSelectMenu "fridge_pick_slot" ["25"]) "alice" "alice" None))
    carol_world ∧
  rejected_untouched
    (Multi.on_InteractionCreate sample_Number
       (Interaction (StringSelectMenu "fridge_release_pick" ["abc"]) "carol" "carol" None))
    carol_world.
Proof.
  split.
  - apply (invalid_selection_rejected sample_Number "alice" "alice" None ["25"]).
    intros n [= <-]. right. vm_compute. reflexivity.
  - apply (invalid_selection_rejected sample_Number "carol" "carol" None ["abc"]).
    intros n [=].
Defined.

(** ** The release button of [index.js] *)

Lemma releaseUserSlot_undeclared : "releaseUserSlot" ∉ Single.declared.
Proof.
  unfold Single.declared. intros H.
  repeat (apply elem_of_cons in H as [H|H]; [discriminate H|]).
  by apply elem_of_nil in H.
Qed.

Lemma single_release_run Number u un dn w :
  Single.on_InteractionCreate Number
    (Interaction (ButtonPress "fridge_release") u un dn) w =
  (Ok tt, exec freeExpiredSlots (set_interaction true [] (arrival w))).
Proof. reflexivity. Qed.

(** C5 (the code misses it). [index.js] declares no [releaseUserSlot]: the
    call throws a [ReferenceError], so the release button of that variant,
    after its sweep, releases nothing and answers nothing (the reply of the
    [catch] fails on the deferred interaction and is swallowed): whoever
    held a slot after the sweep holds it still. *)
Theorem release_button_releases_nothing Number u un dn w :
  let listener := Single.on_InteractionCreate Number
                    (Interaction (ButtonPress "fridge_release") u un dn) in
  ("releaseUserSlot" ∉ Single.declared) ∧
  eval (Single.releaseUserSlot u) w = Throw (ReferenceError "releaseUserSlot") ∧
  eval listener w = Ok tt ∧
  responses (exec listener w) = [] ∧
  fridge_slots (exec listener w) = fridge_slots (exec freeExpiredSlots w) ∧
  (∀ s, holds (exec freeExpiredSlots w) s u → holds (exec listener w) s u).
Proof.
  intros listener. split; [apply releaseUserSlot_undeclared|].
  split; [reflexivity|]. unfold listener, eval, exec.
  rewrite single_release_run. split; [done|]. split; [done|].
  split; [done|]. by intros s H.
Qed.

(** Carol, who holds slot 1, presses the release button of [index.js]: she
    is told nothing and holds slot 1 as before. *)
Lemma release_button_on_carol :
  let listener := Single.on_InteractionCreate sample_Number
                    (Interaction (ButtonPress "fridge_release") "carol" "carol" None) in
  holds carol_world 1 "carol" ∧
  eval listener carol_world = Ok tt ∧
  responses (exec listener carol_world) = [] ∧
  fridge_slots (exec listener carol_world) = fridge_slots carol_world.
Proof.
  split; [exact (reserveSlot_holds _ _ _ _ started_slot_1_free)|].
  repeat split; vm_compute; reflexivity.
Qed.

(** * Further properties *)

(** ** [dbInit] *)

Lemma ensure_slots_run k i w :
  eval (ensure_slots k i) w = Ok tt ∧
  fridge_slots (exec (ensure_slots k i) w) = ensure_rows k i (fridge_slots w) ∧
  fridge_meta (exec (ensure_slots k i) w) = fridge_meta w ∧
  messages (exec (ensure_slots k i) w) = messages w ∧
  discord_log (exec (ensure_slots k i) w) = discord_log w ∧
  queries (exec (ensure_slots k i) w) = (k + queries w)%nat.
Proof.
  revert i w. induction k as [|k IH]; intros i w; [done|].
  change (eval (ensure_slots (S k) i) w)
    with (eval (ensure_slots k (i + 1))
            (count_query (set_slots (insert_slot i (fridge_slots w)) w))).
  change (exec (ensure_slots (S k) i) w)
    with (exec (ensure_slots k (i + 1))
            (count_query (set_slots (insert_slot i (fridge_slots w)) w))).
  destruct (IH (i + 1) (count_query (set_slots (insert_slot i (fridge_slots w)) w)))
    as (-> & -> & -> & -> & -> & ->).
  repeat split. simpl. lia.
Qed.

Lemma dbInit_eval_from k w :
  eval (do! modify count_query in do! modify count_query in ensure_slots k 1) w =
  eval (ensure_slots k 1) (count_query (count_query w)).
Proof. reflexivity. Qed.

Lemma dbInit_eval w :
  eval dbInit w =
  eval (ensure_slots (Z.to_nat SLOT_COUNT) 1) (count_query (count_query w)).
Proof. exact (dbInit_eval_from (Z.to_nat SLOT_COUNT) w). Qed.

Lemma dbInit_rows w :
  fridge_slots (exec dbInit w) = ensure_rows (Z.to_nat SLOT_COUNT) 1 (fridge_slots w).
Proof.
  rewrite dbInit_exec.
  by destruct (ensure_slots_run (Z.to_nat SLOT_COUNT) 1 (count_query (count_query w)))
    as (_ & -> & _).
Qed.

Lemma insert_slot_present i rows :
  i ∈ slot_no <$> rows → insert_slot i rows = rows.
Proof.
  intros Hin. unfold insert_slot.
  destruct (existsb _ rows) eqn:Hex; [done|].
  by apply existsb_slot_no in Hex.
Qed.

Lemma insert_slot_absent i rows :
  i ∉ slot_no <$> rows → insert_slot i rows = rows ++ [blank_slot i].
Proof.
  intros Hnotin. unfold insert_slot.
  destruct (existsb _ rows) eqn:Hex; [|done].
  exfalso. apply Hnotin. apply existsb_exists in Hex as (r & Hr & Heq).
  apply list_elem_of_fmap. exists r. split; [lia|by apply list_elem_of_In].
Qed.

Lemma insert_slot_cases i rows :
  insert_slot i rows = rows ∨ insert_slot i rows = rows ++ [blank_slot i].
Proof.
  unfold insert_slot. destruct (existsb _ rows); [by left|by right].
Qed.

(** The loop only appends, and what it appends are blank rows numbered
    within its range. *)
Lemma ensure_rows_appends k i rows :
  ∃ added, ensure_rows k i rows = rows ++ added ∧
           Forall (λ r, r = blank_slot (slot_no r) ∧
                        i ≤ slot_no r < i + Z.of_nat k) added.
Proof.
  revert i rows. induction k as [|k IH]; intros i rows.
  - exists []. by rewrite app_nil_r.
  - simpl ensure_rows. destruct (IH (i + 1) (insert_slot i rows)) as (added & -> & Hadded).
    assert (Forall (λ r, r = blank_slot (slot_no r) ∧
                         i ≤ slot_no r < i + Z.of_nat (S k)) added) as Hadded'.
    { eapply Forall_impl; [exact Hadded|]. intros r [? ?]. split; [done|lia]. }
    destruct (insert_slot_cases i rows) as [-> | ->].
    + by exists added.
    + exists (blank_slot i :: added). rewrite <- app_assoc. split; [done|].
      apply Forall_cons. split; [|done]. split; [done|simpl; lia].
Qed.

Lemma ensure_rows_covers k i rows j :
  i ≤ j < i + Z.of_nat k → j ∈ slot_no <$> ensure_rows k i rows.
Proof.
  revert i rows. induction k as [|k IH]; intros i rows Hj; [lia|].
  simpl ensure_rows. destruct (decide (j = i)) as [->|Hne].
  - destruct (ensure_rows_appends k (i + 1) (insert_slot i rows)) as (added & -> & _).
    rewrite fmap_app. apply elem_of_app. left.
    destruct (decide (i ∈ slot_no <$> rows)) as [Hin|Hnotin].
    + by rewrite insert_slot_present.
    + rewrite insert_slot_absent by done. rewrite fmap_app.
      apply elem_of_app. right. apply list_elem_of_here.
  - apply IH. lia.
Qed.

Lemma ensure_rows_present k i rows :
  (∀ j, i ≤ j < i + Z.of_nat k → j ∈ slot_no <$> rows) →
  ensure_rows k i rows = rows.
Proof.
  revert i rows. induction k as [|k IH]; intros i rows Hall; [done|].
  simpl ensure_rows. rewrite insert_slot_present by (apply Hall; lia).
  apply IH. intros j Hj. apply Hall. lia.
Qed.

Lemma ensure_rows_fresh k i rows :
  (∀ n, n ∈ slot_no <$> rows → n < i) →
  ensure_rows k i rows = rows ++ (blank_slot <$> seqZ i (Z.of_nat k)).
Proof.
  revert i rows. induction k as [|k IH]; intros i rows Hlow.
  - by rewrite app_nil_r.
  - simpl ensure_rows. rewrite insert_slot_absent.
    2:{ intros Hin. apply Hlow in Hin. lia. }
    rewrite IH.
    2:{ intros n Hn. rewrite fmap_app in Hn. apply elem_of_app in Hn as [Hn|Hn].
        - apply Hlow in Hn. lia.
        - apply list_elem_of_singleton in Hn. simpl in Hn. lia. }
    rewrite <- app_assoc. f_equal.
    rewrite (seqZ_cons i (Z.of_nat (S k))) by lia.
    replace (Z.pred (Z.of_nat (S k))) with (Z.of_nat k) by lia.
    replace (Z.succ i) with (i + 1) by lia. done.
Qed.

Lemma ensure_rows_NoDup k i rows :
  NoDup (slot_no <$> rows) → NoDup (slot_no <$> ensure_rows k i rows).
Proof.
  revert i rows. induction k as [|k IH]; intros i rows Hnd; [done|].
  simpl ensure_rows. apply IH.
  destruct (decide (i ∈ slot_no <$> rows)) as [Hin|Hnotin].
  - by rewrite insert_slot_present.
  - rewrite insert_slot_absent by done. rewrite fmap_app. apply NoDup_app.
    split; [done|]. split; [|apply NoDup_singleton].
    intros x Hx Hi. apply list_elem_of_singleton in Hi. simpl in Hi. by subst.
Qed.

(** X1. [dbInit] returns normally and only appends blank rows numbered from 1
    to [SLOT_COUNT]: the rows that were there, with their leases, stay as
    they are and where they are. Afterwards every slot from 1 to
    [SLOT_COUNT] has a row, a second [dbInit] changes no row, unique slot
    numbers stay unique, the other table is untouched, and on an empty table
    the result is the [SLOT_COUNT] blank rows in ascending order. *)
Theorem dbInit_ensures_every_slot w :
  let w' := exec dbInit w in
  eval dbInit w = Ok tt ∧
  (∃ added, fridge_slots w' = fridge_slots w ++ added ∧
            Forall (λ r, r = blank_slot (slot_no r) ∧
                         1 ≤ slot_no r ≤ SLOT_COUNT) added) ∧
  (∀ i, 1 ≤ i ≤ SLOT_COUNT → i ∈ slot_numbers w') ∧
  fridge_slots (exec dbInit w') = fridge_slots w' ∧
  (NoDup (slot_numbers w) → NoDup (slot_numbers w')) ∧
  fridge_meta w' = fridge_meta w ∧
  (fridge_slots w = [] →
     fridge_slots w' = blank_slot <$> seqZ 1 SLOT_COUNT).
Proof.
  intros w'. unfold w', slot_numbers.
  assert (Z.of_nat (Z.to_nat SLOT_COUNT) = SLOT_COUNT) as Hcount by done.
  split.
  { rewrite dbInit_eval. apply ensure_slots_run. }
  split.
  { rewrite dbInit_rows.
    destruct (ensure_rows_appends (Z.to_nat SLOT_COUNT) 1 (fridge_slots w))
      as (added & -> & Hadded).
    exists added. split; [done|]. eapply Forall_impl; [exact Hadded|].
    intros r [? ?]. split; [done|]. rewrite Hcount in *. lia. }
  split.
  { intros i Hi. rewrite dbInit_rows. apply ensure_rows_covers. rewrite Hcount. lia. }
  split.
  { rewrite (dbInit_rows (exec dbInit w)). apply ensure_rows_present.
    intros j Hj. rewrite dbInit_rows. by apply ensure_rows_covers. }
  split.
  { intros Hnd. rewrite dbInit_rows. by apply ensure_rows_NoDup. }
  split.
  { rewrite dbInit_exec.
    by destruct (ensure_slots_run (Z.to_nat SLOT_COUNT) 1 (count_query (count_query w)))
      as (_ & _ & -> & _). }
  intros Hempty. rewrite dbInit_rows, Hempty, ensure_rows_fresh, Hcount; [done|].
  intros n Hn. by apply elem_of_nil in Hn.
Qed.

(** ** The metadata table *)

(** X2. [setMeta] then [getMeta] of the same key gives the value back, a
    second [setMeta] of the key replaces the first (the upsert of [ON
    CONFLICT DO UPDATE]), every other key reads as before, a key never set
    reads as null, and neither function touches [fridge_slots]. *)
Theorem meta_round_trip key value w :
  eval (getMeta key) (exec (setMeta key value) w) = Ok (Some value) ∧
  (∀ other, other ≠ key →
     eval (getMeta other) (exec (setMeta key value) w) = eval (getMeta other) w) ∧
  (∀ value', eval (getMeta key) (exec (setMeta key value') (exec (setMeta key value) w))
             = Ok (Some value')) ∧
  (fridge_meta w !! key = None → eval (getMeta key) w = Ok None) ∧
  fridge_meta (exec (getMeta key) w) = fridge_meta w ∧
  fridge_slots (exec (setMeta key value) w) = fridge_slots w ∧
  fridge_slots (exec (getMeta key) w) = fridge_slots w.
Proof.
  unfold eval, exec, getMeta, setMeta; simpl. split; [|split; [|split; [|split]]].
  - by rewrite lookup_insert_eq.
  - intros other Hne. by rewrite lookup_insert_ne.
  - intros value'. by rewrite lookup_insert_eq.
  - by intros ->.
  - done.
Qed.

(** ** The listing of all slots *)

Global Instance slot_no_le_transitive : Transitive slot_no_le.
Proof. intros a b c. unfold slot_no_le. lia. Qed.

Global Instance slot_no_le_total : Total slot_no_le.
Proof. intros a b. unfold slot_no_le. lia. Qed.

Lemma StronglySorted_lookup {A} (R : relation A) (l : list A) i j a b :
  StronglySorted R l → (i < j)%nat → l !! i = Some a → l !! j = Some b → R a b.
Proof.
  intros Hsorted. revert i j. induction Hsorted as [|x l Hl IH Hx]; intros i j Hij Hi Hj.
  - by rewrite lookup_nil in Hi.
  - destruct j as [|j]; [lia|]. simpl in Hj. destruct i as [|i]; simpl in Hi.
    + injection Hi as <-. rewrite Forall_forall in Hx. apply Hx.
      by apply list_elem_of_lookup_2 in Hj.
    + apply (IH i j); [lia|done..].
Qed.

Lemma order_by_slot_no_sorted rows :
  StronglySorted slot_no_le (order_by_slot_no rows).
Proof. apply StronglySorted_merge_sort; apply _. Qed.

Lemma order_by_slot_no_Permutation rows : order_by_slot_no rows ≡ₚ rows.
Proof. apply merge_sort_Permutation. Qed.

Lemma order_by_slot_no_ascending rows i j a b :
  (i < j)%nat →
  order_by_slot_no rows !! i = Some a → order_by_slot_no rows !! j = Some b →
  slot_no a ≤ slot_no b.
Proof.
  intros Hij Hi Hj.
  exact (StronglySorted_lookup slot_no_le _ i j a b
           (order_by_slot_no_sorted rows) Hij Hi Hj).
Qed.

(** X3. [getSlots] returns every row of the table, each once, in ascending
    order of [slot_no] (strictly ascending when the slot numbers are
    unique), and changes no row. With unique slot numbers the listing does
    not depend on the order in which the table stores its rows. *)
Theorem getSlots_ascending_snapshot w :
  ∃ rows, eval getSlots w = Ok rows ∧
    rows ≡ₚ fridge_slots w ∧
    (∀ i j a b, (i < j)%nat → rows !! i = Some a → rows !! j = Some b →
       slot_no a ≤ slot_no b) ∧
    (NoDup (slot_numbers w) →
     ∀ i j a b, (i < j)%nat → rows !! i = Some a → rows !! j = Some b →
       slot_no a < slot_no b) ∧
    (∀ w2, NoDup (slot_numbers w) → fridge_slots w2 ≡ₚ fridge_slots w →
       eval getSlots w2 = Ok rows) ∧
    fridge_slots (exec getSlots w) = fridge_slots w.
Proof.
  exists (order_by_slot_no (fridge_slots w)). split; [done|].
  split; [apply order_by_slot_no_Permutation|].
  split; [intros i j a b; apply order_by_slot_no_ascending|].
  assert (NoDup (slot_numbers w) → NoDup (slot_no <$> order_by_slot_no (fridge_slots w)))
    as Hnd'.
  { intros Hnd. unfold slot_numbers in Hnd.
    by rewrite (order_by_slot_no_Permutation (fridge_slots w)). }
  split; [|split; [|done]].
  - intros Hnd i j a b Hij Hi Hj.
    pose proof (order_by_slot_no_ascending _ i j a b Hij Hi Hj) as Hle.
    destruct (decide (slot_no a = slot_no b)) as [Heq|Hne]; [|lia].
    exfalso. specialize (Hnd' Hnd).
    assert (i = j); [|lia].
    apply (NoDup_lookup _ i j (slot_no a) Hnd').
    + by rewrite list_lookup_fmap, Hi.
    + by rewrite list_lookup_fmap, Hj, Heq.
  - intros w2 Hnd Hperm. unfold eval, getSlots; simpl. f_equal.
    apply (StronglySorted_unique_strong slot_no_le).
    + intros a b Ha Hb Hab Hba. unfold slot_no_le in *.
      rewrite order_by_slot_no_elem_of, Hperm in Ha.
      rewrite order_by_slot_no_elem_of in Hb.
      apply (primary_key_unique (fridge_slots w)); [done..|lia].
    + apply order_by_slot_no_sorted.
    + apply order_by_slot_no_sorted.
    + by rewrite !order_by_slot_no_Permutation.
Qed.

(** ** The rows the bot keeps *)

Lemma releaseSpecificSlot_keys s u w :
  slot_numbers (exec (releaseSpecificSlot s u) w) = slot_numbers w.
Proof. unfold slot_numbers. rewrite releaseSpecificSlot_slots. by apply sql_update_slot_no. Qed.

Lemma upsertPanelMessage_keys v w :
  slot_numbers (exec (upsertPanelMessage v) w) = slot_numbers w.
Proof.
  unfold slot_numbers. rewrite upsertPanelMessage_slots.
  destruct (panel_channel w); [apply freeExpiredSlots_keys|done].
Qed.

Lemma step_slot_numbers w w' :
  step w w' →
  ∃ added, slot_numbers w' = slot_numbers w ++ added ∧
           Forall (λ n, 1 ≤ n ≤ SLOT_COUNT) added.
Proof.
  intros Hstep. destruct Hstep as [w|w|w s u n Hu|w s u|w v|w w' Heq].
  - destruct (ensure_rows_appends (Z.to_nat SLOT_COUNT) 1 (fridge_slots w))
      as (added & Hrows & Hadded).
    exists (slot_no <$> added). unfold slot_numbers.
    rewrite dbInit_rows, Hrows, fmap_app. split; [done|].
    apply Forall_fmap. eapply Forall_impl; [exact Hadded|].
    intros r [_ Hr]. simpl. assert (Z.of_nat (Z.to_nat SLOT_COUNT) = SLOT_COUNT) as Hc by done.
    rewrite Hc in Hr. lia.
  - exists []. rewrite app_nil_r. split; [apply freeExpiredSlots_keys|done].
  - exists []. rewrite app_nil_r. split; [apply reserveSlot_keys|done].
  - exists []. rewrite app_nil_r. split; [apply releaseSpecificSlot_keys|done].
  - exists []. rewrite app_nil_r. split; [apply upsertPanelMessage_keys|done].
  - exists []. rewrite app_nil_r. unfold slot_numbers. by rewrite Heq.
Qed.

Lemma steps_slot_numbers_in_range w w' :
  rtc step w w' →
  Forall (λ n, 1 ≤ n ≤ SLOT_COUNT) (slot_numbers w) →
  Forall (λ n, 1 ≤ n ≤ SLOT_COUNT) (slot_numbers w').
Proof.
  induction 1 as [w|w1 w2 w3 Hstep _ IH]; [done|].
  intros Hrange. apply IH.
  destruct (step_slot_numbers w1 w2 Hstep) as (added & -> & Hadded).
  by apply Forall_app.
Qed.

Lemma in_range_length (ks : list Z) :
  NoDup ks → Forall (λ n, 1 ≤ n ≤ SLOT_COUNT) ks →
  (length ks ≤ Z.to_nat SLOT_COUNT)%nat.
Proof.
  intros Hnd Hrange. rewrite <- (length_seqZ 1 SLOT_COUNT).
  apply submseteq_length, NoDup_submseteq; [done|].
  intros n Hn. rewrite Forall_forall in Hrange. specialize (Hrange n Hn).
  apply elem_of_seqZ. lia.
Qed.

(** X4. What every reachable state of the store satisfies: slot numbers are
    unique and lie between 1 and [SLOT_COUNT], so there are at most
    [SLOT_COUNT] rows; and every row is either blank (its four fields null)
    or a lease, with a holder and an expiry. *)
Theorem reachable_store_invariant w :
  reachable w →
  NoDup (slot_numbers w) ∧
  Forall (λ n, 1 ≤ n ≤ SLOT_COUNT) (slot_numbers w) ∧
  (length (fridge_slots w) ≤ Z.to_nat SLOT_COUNT)%nat ∧
  (∀ r, r ∈ fridge_slots w →
     r = blank_slot (slot_no r) ∨
     ∃ u e, reserved_by_id r = Some u ∧ u ≠ "" ∧ ends_at r = Some e).
Proof.
  intros Hreach. destruct (reachable_table_ok w Hreach) as [Hnd Hrows].
  assert (Forall (λ n, 1 ≤ n ≤ SLOT_COUNT) (slot_numbers w)) as Hrange.
  { destruct Hreach as (w0 & Hw0 & Hsteps).
    apply (steps_slot_numbers_in_range w0); [done|].
    unfold slot_numbers. rewrite Hw0. constructor. }
  split; [done|]. split; [done|]. split.
  { rewrite <- (length_fmap slot_no). by apply in_range_length. }
  intros r Hr. rewrite Forall_forall in Hrows. specialize (Hrows r Hr).
  unfold row_ok in Hrows. destruct r as [no id name at_ ends]; simpl in *.
  destruct id as [u|].
  - right. destruct Hrows as [Hu [e He]]. by exists u, e.
  - left. destruct Hrows as (-> & -> & ->). done.
Qed.

Lemma reachable_store_invariant_witness :
  NoDup (slot_numbers carol_world) ∧
  (length (fridge_slots carol_world) ≤ Z.to_nat SLOT_COUNT)%nat.
Proof.
  destruct (reachable_store_invariant carol_world reachable_carol)
    as (Hnd & _ & Hlen & _).
  exact (conj Hnd Hlen).
Defined.

(** X5. No slot is created or destroyed by a claim, a release, a sweep or a
    refresh of the panel: the slot numbers of the table, in order, are as
    before. A claim and a release of slot [s] leave every row of another
    slot as it was, and a sweep leaves every row without an expiry, or with
    one in the future, as it was. *)
Theorem writers_keep_the_slots w :
  (∀ s u n, slot_numbers (exec (reserveSlot s u n) w) = slot_numbers w) ∧
  (∀ s u, slot_numbers (exec (releaseSpecificSlot s u) w) = slot_numbers w) ∧
  slot_numbers (exec freeExpiredSlots w) = slot_numbers w ∧
  (∀ v, slot_numbers (exec (upsertPanelMessage v) w) = slot_numbers w) ∧
  (∀ s u n i r, fridge_slots w !! i = Some r → slot_no r ≠ s →
     fridge_slots (exec (reserveSlot s u n) w) !! i = Some r) ∧
  (∀ s u i r, fridge_slots w !! i = Some r → slot_no r ≠ s →
     fridge_slots (exec (releaseSpecificSlot s u) w) !! i = Some r) ∧
  (∀ i r, fridge_slots w !! i = Some r → ¬ lease_over (db_now w) r →
     fridge_slots (exec freeExpiredSlots w) !! i = Some r).
Proof.
  split; [intros s u n; apply reserveSlot_keys|].
  split; [intros s u; apply releaseSpecificSlot_keys|].
  split; [apply freeExpiredSlots_keys|].
  split; [intros v; apply upsertPanelMessage_keys|].
  split; [|split].
  - intros s u n i r Hi Hne. rewrite reserveSlot_slots.
    rewrite (sql_update_lookup _ _ _ _ _ Hi).
    destruct (reserve_cond s r) eqn:Hc; [|done].
    apply reserve_cond_true in Hc as [? _]. done.
  - intros s u i r Hi Hne. rewrite releaseSpecificSlot_slots.
    rewrite (sql_update_lookup _ _ _ _ _ Hi).
    destruct (release_cond s u r) eqn:Hc; [|done].
    apply release_cond_true in Hc as [? _]. done.
  - intros i r Hi Hlive. rewrite freeExpiredSlots_slots.
    rewrite (sql_update_lookup _ _ _ _ _ Hi).
    apply expired_at_false in Hlive. by rewrite Hlive.
Qed.

(** ** The life of a lease *)

Lemma reserveSlot_lease_row w s u n :
  free_slot w s →
  Slot s (Some u) (Some n) (Some (db_now w))
       (Some (js_now w + RESERVE_HOURS * 60 * 60 * 1000))
    ∈ fridge_slots (exec (reserveSlot s u n) w).
Proof.
  intros (r & Hr & Hs & Hid). rewrite reserveSlot_slots.
  apply sql_update_elem_of. exists r. split; [done|].
  assert (reserve_cond s r = true) as -> by by apply reserve_cond_true.
  by rewrite Hs.
Qed.

Lemma getUserReservedSlots_listed u w r :
  r ∈ fridge_slots w → reserved_by_id r = Some u →
  ∃ mine, eval (getUserReservedSlots u) w = Ok mine ∧ (slot_no r, ends_at r) ∈ mine.
Proof.
  intros Hr Hid.
  destruct (getUserReservedSlots_elem_of u w (slot_no r) (ends_at r)) as (mine & Hev & Hin).
  exists mine. split; [done|]. apply Hin. by exists r.
Qed.

(** X6. The round trip of a lease. Claiming a free slot puts it in the
    claimant's listing with an expiry [RESERVE_HOURS] after [Date.now()];
    once the database clock has reached that expiry, a sweep makes the slot
    free again, the claimant holds it no more, and it is gone from the
    listing. *)
Theorem lease_expires_after_reserve_hours w s u n db js :
  reachable w →
  free_slot w s →
  js_now w + RESERVE_HOURS * 60 * 60 * 1000 ≤ db →
  let w1 := exec (reserveSlot s u n) w in
  let w2 := exec freeExpiredSlots (set_clocks db js w1) in
  (∃ mine, eval (getUserReservedSlots u) w1 = Ok mine ∧
           (s, Some (js_now w + 28800000)) ∈ mine) ∧
  free_slot w2 s ∧
  (∀ u', ¬ holds w2 s u') ∧
  (∃ mine, eval (getUserReservedSlots u) w2 = Ok mine ∧ ∀ e, (s, e) ∉ mine).
Proof.
  intros Hreach Hfree Hlate w1 w2.
  destruct (reachable_table_ok w Hreach) as [Hnd _].
  pose proof (reserveSlot_lease_row w s u n Hfree) as Hlease. fold w1 in Hlease.
  set (lease := Slot s (Some u) (Some n) (Some (db_now w))
                     (Some (js_now w + RESERVE_HOURS * 60 * 60 * 1000))) in *.
  assert (NoDup (slot_no <$> fridge_slots w1)) as Hnd1
    by (unfold w1; by rewrite reserveSlot_keys).
  assert (∀ r, r ∈ fridge_slots w2 → slot_no r = s → r = blank_slot s) as Hblank.
  { intros r2 Hr2 Hs2. apply freeExpiredSlots_elem_of in Hr2 as (r1 & Hr1 & ->).
    change (fridge_slots (set_clocks db js w1)) with (fridge_slots w1) in Hr1.
    change (db_now (set_clocks db js w1)) with db in *.
    assert (slot_no r1 = s) as Hs1 by (by destruct (expired_at db r1)).
    assert (r1 = lease) as -> by (by apply (primary_key_unique (fridge_slots w1))).
    assert (expired_at db lease = true) as ->; [|done].
    apply expired_at_true. by eexists. }
  split.
  { destruct (getUserReservedSlots_listed u w1 lease Hlease eq_refl) as (mine & ? & ?).
    by exists mine. }
  split.
  { exists (blank_slot s). split; [|done]. apply freeExpiredSlots_elem_of.
    exists lease. split; [done|]. change (db_now (set_clocks db js w1)) with db.
    assert (expired_at db lease = true) as ->; [|done].
    apply expired_at_true. by eexists. }
  split.
  { intros u' (r & Hr & Hs & Hid). by rewrite (Hblank r Hr Hs) in Hid. }
  destruct (getUserReservedSlots_elem_of u w2 s None) as (mine & Hev & _).
  exists mine. split; [done|]. intros e Hin.
  destruct (getUserReservedSlots_elem_of u w2 s e) as (mine' & Hev' & Hiff).
  rewrite Hev in Hev'. injection Hev' as <-.
  apply Hiff in Hin as (r & Hr & Hs & _ & Hid). by rewrite (Hblank r Hr Hs) in Hid.
Qed.

Lemma lease_expires_after_reserve_hours_witness :
  free_slot (exec freeExpiredSlots
               (set_clocks 28800000 28800000
                  (exec (reserveSlot 1 "alice" "Alice") started_world))) 1.
Proof.
  assert (js_now started_world + RESERVE_HOURS * 60 * 60 * 1000 ≤ 28800000) as Hlate
    by (vm_compute; discriminate).
  destruct (lease_expires_after_reserve_hours started_world 1 "alice" "Alice"
              28800000 28800000 reachable_started started_slot_1_free Hlate)
    as (_ & Hfree & _).
  exact Hfree.
Defined.

(** X7. Releasing a slot one holds makes it free, so that the next claim of
    it, by anyone, succeeds; the slots other users hold, and the other slots
    of the same user, are held as before. *)
Theorem release_then_reserve w s u u2 n2 :
  reachable w →
  holds w s u →
  let w1 := exec (releaseSpecificSlot s u) w in
  free_slot w1 s ∧
  eval (reserveSlot s u2 n2) w1 = Ok true ∧
  holds (exec (reserveSlot s u2 n2) w1) s u2 ∧
  (∀ s' u', s' ≠ s → holds w s' u' ↔ holds w1 s' u').
Proof.
  intros Hreach (r & Hr & Hs & Hid) w1.
  destruct (reachable_table_ok w Hreach) as [Hnd _].
  assert (release_cond s u r = true) as Hc by by apply release_cond_true.
  assert (free_slot w1 s) as Hfree.
  { exists (clear_slot r). split; [|done]. unfold w1.
    rewrite releaseSpecificSlot_slots. apply sql_update_elem_of.
    exists r. by rewrite Hc. }
  assert (NoDup (slot_no <$> fridge_slots w1)) as Hnd1.
  { pose proof (releaseSpecificSlot_keys s u w) as Hk. unfold slot_numbers in Hk.
    unfold w1. by rewrite Hk. }
  split; [done|]. split; [by apply reserveSlot_true_iff|].
  split; [by apply reserveSlot_holds|].
  intros s' u' Hne. unfold w1, holds. rewrite releaseSpecificSlot_slots. split.
  - intros (r' & Hr' & Hs' & Hid'). exists r'. split; [|done].
    apply sql_update_elem_of. exists r'. split; [done|].
    destruct (release_cond s u r') eqn:Hc'; [|done].
    apply release_cond_true in Hc' as [? _]. congruence.
  - intros (r1 & Hr1 & Hs' & Hid').
    apply sql_update_elem_of in Hr1 as (r' & Hr' & ->).
    destruct (release_cond s u r') eqn:Hc'; [done|]. by exists r'.
Qed.

Lemma release_then_reserve_witness :
  eval (reserveSlot 1 "bob" "Bob")
       (exec (releaseSpecificSlot 1 "carol") carol_world) = Ok true.
Proof.
  assert (holds carol_world 1 "carol") as Hheld
    by exact (reserveSlot_holds _ _ _ _ started_slot_1_free).
  destruct (release_then_reserve carol_world 1 "carol" "bob" "Bob"
              reachable_carol Hheld) as (_ & Hok & _).
  exact Hok.
Defined.

(** ** What the panel shows *)

Lemma humanRemaining_positive ms :
  0 < ms → ∃ rest, humanRemaining ms = "peste " +:+ rest.
Proof.
  intros Hpos. unfold humanRemaining. rewrite (proj2 (Z.leb_gt ms 0) Hpos).
  destruct (_ <=? 0); [by eexists|]. destruct (_ =? 0); by eexists.
Qed.

Lemma swept_row_cases w r :
  reachable w → r ∈ fridge_slots (exec freeExpiredSlots w) →
  r = blank_slot (slot_no r) ∨
  ∃ u e, reserved_by_id r = Some u ∧ u ≠ "" ∧ ends_at r = Some e ∧ db_now w < e.
Proof.
  intros Hreach Hr.
  destruct (reachable_table_ok w Hreach) as [_ Hrows]. rewrite Forall_forall in Hrows.
  apply freeExpiredSlots_elem_of in Hr as (r0 & Hr0 & ->).
  destruct (expired_at (db_now w) r0) eqn:Hexp; [by left|].
  specialize (Hrows r0 Hr0). unfold row_ok in Hrows.
  destruct r0 as [no id name at_ ends]; simpl in *. destruct id as [u|].
  - right. destruct Hrows as [Hu [e ->]]. exists u, e. repeat split; [done..|].
    unfold expired_at in Hexp. simpl in Hexp. by apply Z.leb_gt.
  - left. by destruct Hrows as (-> & -> & ->).
Qed.

(** X8. When [Date.now()] is not ahead of the database clock, the panel
    that [upsertPanelMessage] renders right after its own sweep shows no
    expired lease: after the four lines of the header comes one line per
    slot, in ascending order, and it is the free line for a slot without
    holder and, for a held slot, the holder's name with a remaining time that
    starts with "peste", never "expirat". *)
Theorem panel_after_sweep_shows_no_expired v w :
  reachable w →
  js_now w ≤ db_now w →
  let rows := order_by_slot_no (fridge_slots (exec freeExpiredSlots w)) in
  let lines := panel_lines v rows (js_now w) in
  description (rendered v w) = "```" +:+ String.concat newline lines +:+ "```" ∧
  length lines = (4 + length (fridge_slots w))%nat ∧
  ∀ i r, rows !! i = Some r →
    ∃ line, lines !! (4 + i)%nat = Some line ∧
      ((reserved_by_id r = None ∧ line = free_line (slot_no r)) ∨
       (∃ u e rest, reserved_by_id r = Some u ∧ ends_at r = Some e ∧
          js_now w < e ∧
          humanRemaining (e - js_now w) = "peste " +:+ rest ∧
          line = leased_line (slot_no r) (shown_name r)
                             (humanRemaining (e - js_now w)))).
Proof.
  intros Hreach Hclock rows lines. split; [done|]. split.
  { unfold lines, panel_lines, rows.
    rewrite length_app, length_fmap.
    rewrite (Permutation_length (order_by_slot_no_Permutation _)).
    by rewrite freeExpiredSlots_slots, sql_update_rows, length_fmap. }
  intros i r Hi. exists (slot_line (js_now w) r). split.
  { unfold lines, panel_lines. simpl. by rewrite list_lookup_fmap, Hi. }
  assert (r ∈ fridge_slots (exec freeExpiredSlots w)) as Hr.
  { apply order_by_slot_no_elem_of. by apply list_elem_of_lookup_2 in Hi. }
  destruct (swept_row_cases w r Hreach Hr) as [->|(u & e & Hid & Hu & He & Hlive)].
  - left. done.
  - right. destruct (humanRemaining_positive (e - js_now w)) as [rest Hrest]; [lia|].
    exists u, e, rest. repeat split; [done..|lia|done|].
    unfold slot_line. rewrite Hid, He. simpl.
    by rewrite bool_decide_true by done.
Qed.

Lemma panel_after_sweep_shows_no_expired_witness :
  length (panel_lines MultiSlot
            (order_by_slot_no (fridge_slots (exec freeExpiredSlots expired_world)))
            (js_now expired_world)) = (4 + length (fridge_slots expired_world))%nat.
Proof.
  assert (js_now expired_world ≤ db_now expired_world) as Hclock
    by (vm_compute; discriminate).
  destruct (panel_after_sweep_shows_no_expired MultiSlot expired_world
              reachable_expired Hclock) as (_ & Hlen & _).
  exact Hlen.
Defined.

(** ** When the panel cannot be edited *)

Lemma upsertPanelMessage_throws v w :
  panel_channel w = true → no_panel_message w → incoming_ids w = [] →
  upsertPanelMessage v w = (Throw (DiscordAPIError "send"), after_queries w).
Proof.
  intros Hc Hstale Hids. rewrite upsertPanelMessage_prefix by done.
  cbv zeta.
  assert ((let! sent := channel_send (rendered v w) in
           setMeta "panel_message_id" sent) (after_queries w) =
          (Throw (DiscordAPIError "send"), after_queries w)) as Hcreate.
  { unfold bind, channel_send.
    change (incoming_ids (after_queries w)) with (incoming_ids w).
    rewrite Hids. reflexivity. }
  destruct (fridge_meta w !! "panel_message_id") as [old|] eqn:Hmeta;
    cbn [truthy default from_option]; unfold Datatypes.id; [|exact Hcreate].
  destruct (bool_decide (old ≠ "")) eqn:Hold; [|exact Hcreate].
  apply bool_decide_eq_true in Hold.
  unfold bind at 1. unfold messages_fetch, gets. cbv beta.
  change (messages (after_queries w)) with (messages w).
  rewrite (Hstale old Hmeta Hold).
  rewrite bool_decide_false by (by intros [? ?]). exact Hcreate.
Qed.

(** X9. With the channel there, no identifier stored under
    [panel_message_id] (or an empty one, which the test [if (messageId)]
    takes for none) and Discord accepting a message, [upsertPanelMessage]
    sends one new message with the document it rendered and stores the
    identifier Discord gave it, so that the stored identifier points to that
    document. The other messages of the channel are as before, and the rows
    are those its sweep left. *)
Theorem upsertPanelMessage_creates_panel v w id ids :
  panel_channel w = true →
  truthy (fridge_meta w !! "panel_message_id") = false →
  incoming_ids w = id :: ids →
  let w' := exec (upsertPanelMessage v) w in
  eval (upsertPanelMessage v) w = Ok tt ∧
  fridge_meta w' = <["panel_message_id" := id]> (fridge_meta w) ∧
  messages w' = <[id := rendered v w]> (messages w) ∧
  published w' = Some (rendered v w) ∧
  discord_log w' = discord_log w ++ [Sent id] ∧
  incoming_ids w' = ids ∧
  fridge_slots w' = fridge_slots (exec freeExpiredSlots w).
Proof.
  intros Hc Hfalsy Hids w'.
  assert (no_panel_message w) as Hnone.
  { intros old Hold Hne. rewrite Hold in Hfalsy. simpl in Hfalsy.
    by apply bool_decide_eq_false in Hfalsy. }
  unfold w', eval, exec.
  rewrite (upsertPanelMessage_sends v w id ids) by done. simpl.
  repeat split. unfold published. simpl.
  by rewrite !lookup_insert_eq.
Qed.

Lemma upsertPanelMessage_creates_panel_witness :
  published (exec (upsertPanelMessage MultiSlot) carol_world)
    = Some (rendered MultiSlot carol_world) ∧
  discord_log (exec (upsertPanelMessage MultiSlot) carol_world) = [Sent "1001"].
Proof.
  assert (panel_channel carol_world = true) as Hc by (vm_compute; reflexivity).
  assert (truthy (fridge_meta carol_world !! "panel_message_id") = false) as Hfalsy
    by (vm_compute; reflexivity).
  assert (incoming_ids carol_world = ["1001"; "1002"; "1003"]) as Hids
    by (vm_compute; reflexivity).
  destruct (upsertPanelMessage_creates_panel MultiSlot carol_world
              "1001" ["1002"; "1003"] Hc Hfalsy Hids) as (_ & _ & _ & Hpub & Hlog & _).
  exact (conj Hpub Hlog).
Defined.

(** X10. Where [upsertPanelMessage] gives up. Without a text channel it
    returns at once: nothing is swept, rendered or sent, and the world is as
    it was. With the channel but no message to edit and Discord refusing the
    send, it throws; by then the sweep has run, but the stored identifier,
    the messages and the log are as before. *)
Theorem upsertPanelMessage_gives_up v w :
  (panel_channel w = false →
     eval (upsertPanelMessage v) w = Ok tt ∧ exec (upsertPanelMessage v) w = w) ∧
  (panel_channel w = true → no_panel_message w → incoming_ids w = [] →
     let w' := exec (upsertPanelMessage v) w in
     eval (upsertPanelMessage v) w = Throw (DiscordAPIError "send") ∧
     fridge_slots w' = fridge_slots (exec freeExpiredSlots w) ∧
     fridge_meta w' = fridge_meta w ∧
     messages w' = messages w ∧
     discord_log w' = discord_log w).
Proof.
  split.
  - intros Hc. unfold eval, exec. by rewrite upsertPanelMessage_no_channel.
  - intros Hc Hnone Hids w'. unfold w', eval, exec.
    by rewrite upsertPanelMessage_throws.
Qed.

(** ** Errors stay inside the listeners *)

Lemma run_pair {A} (m : M A) w : m w = (eval m w, exec m w).
Proof. unfold eval, exec. by destruct (m w). Qed.

Lemma run_result {A} (m : M A) w r w' :
  m w = (r, w') → eval m w = r ∧ exec m w = w'.
Proof. intros H. unfold eval, exec. by rewrite H. Qed.

Lemma on_error_run w : ∃ w', on_error w = (Ok tt, w') ∧
  fridge_slots w' = fridge_slots w ∧ fridge_meta w' = fridge_meta w ∧
  messages w' = messages w ∧ discord_log w' = discord_log w ∧
  (acknowledged w = true → w' = w).
Proof.
  unfold on_error, try_catch, interaction_reply, ret.
  destruct (acknowledged w); eexists; (split; [reflexivity|]); by repeat split.
Qed.

Lemma guarded_listener_eval (m : M unit) w :
  eval (try_catch m (λ _, on_error)) w = Ok tt.
Proof.
  unfold eval, try_catch. destruct (m w) as [[[]|e] w']; [done|].
  by destruct (on_error_run w') as (w'' & -> & _).
Qed.

(** X11. Nothing thrown while an interaction is handled leaves the
    listener of the multi-slot file, which awaits every call inside its
    [try], and nothing thrown by a refresh leaves the callback of the timer:
    both return normally whatever happens inside. *)
Theorem listeners_never_throw Number i v w :
  eval (Multi.on_InteractionCreate Number i) w = Ok tt ∧
  eval (refresh_tick v) w = Ok tt.
Proof.
  split.
  - unfold eval. rewrite multi_listener_run. apply guarded_listener_eval.
  - unfold eval, refresh_tick, try_catch.
    by destruct (upsertPanelMessage v w) as [[[]|e] w'].
Qed.

(** ** How [upsertPanelMessage] ends *)





(** ** The reserve menu *)

Lemma try_catch_ext {A} (m m' : M A) h w w' :
  m w = m' w' → try_catch m h w = try_catch m' h w'.
Proof. intros H. unfold try_catch. by rewrite H. Qed.

Lemma slot_valid n : 1 ≤ n ≤ SLOT_COUNT → slot_invalid (Integral n) = false.
Proof.
  intros Hn. unfold slot_invalid. apply orb_false_iff.
  split; [apply Z.ltb_ge; lia|]. rewrite Z.gtb_ltb. apply Z.ltb_ge. lia.
Qed.

Lemma reserveSlot_then {B} s u n (k : bool → M B) w :
  (let! ok := reserveSlot s u n in k ok) w =
  k (bool_decide (length (List.filter (reserve_cond s) (fridge_slots w)) = 1%nat))
    (exec (reserveSlot s u n) w).
Proof.
  unfold bind. by rewrite (run_pair (reserveSlot s u n) w), reserveSlot_eval.
Qed.

Lemma multi_pick_slot_run Number u un dn values n w :
  picked_number Number values = Integral n →
  1 ≤ n ≤ SLOT_COUNT →
  let i := pick_slot values u un dn in
  Multi.on_InteractionCreate Number i w =
  try_catch
    (let! ok := reserveSlot n u (displayName i) in
     if negb ok
     then interaction_editReply
            (text ("❌ Frigiderul " +:+ pad2 n +:+
                   " a fost rezervat deja. Dă refresh și alege altul."))
     else
       do! upsertPanelMessage MultiSlot in
       interaction_editReply
         (text ("✅ Ai rezervat frigiderul **" +:+ pad2 n +:+ "** pentru **" +:+
                js_String RESERVE_HOURS +:+ " ore**.")))
    (λ _, on_error) (exec freeExpiredSlots (deferred w)).
Proof.
  intros Hpicked Hn i. rewrite multi_listener_run.
  change (Multi.dispatch Number i) with (Multi.on_fridge_pick_slot Number i values).
  apply try_catch_ext. unfold Multi.on_fridge_pick_slot. cbv zeta.
  rewrite Hpicked, (slot_valid n Hn). cbn [integer_value]. reflexivity.
Qed.

(** X12. Picking, in the reserve menu, a valid slot that is held once the
    listener's sweep has run: the user is told that the slot is taken
    already, the rows are those the sweep left, and nothing is published. *)
Theorem pick_slot_already_taken Number u un dn values n w :
  picked_number Number values = Integral n →
  1 ≤ n ≤ SLOT_COUNT →
  reachable w →
  ¬ free_slot (exec freeExpiredSlots w) n →
  let listener := Multi.on_InteractionCreate Number (pick_slot values u un dn) in
  eval listener w = Ok tt ∧
  responses (exec listener w) =
    [text ("❌ Frigiderul " +:+ pad2 n +:+
           " a fost rezervat deja. Dă refresh și alege altul.")] ∧
  fridge_slots (exec listener w) = fridge_slots (exec freeExpiredSlots w) ∧
  fridge_meta (exec listener w) = fridge_meta w ∧
  messages (exec listener w) = messages w ∧
  discord_log (exec listener w) = discord_log w.
Proof.
  intros Hpicked Hn Hreach Htaken listener.
  set (W := exec freeExpiredSlots (deferred w)).
  assert (List.filter (reserve_cond n) (fridge_slots W) = []) as Hnone.
  { destruct (List.filter _ _) eqn:Hf; [done|]. exfalso. apply Htaken.
    apply free_slot_filter.
    change (fridge_slots (exec freeExpiredSlots w)) with (fridge_slots W).
    by rewrite Hf. }
  assert (listener w =
          (Ok tt,
           set_interaction true
             [text ("❌ Frigiderul " +:+ pad2 n +:+
                    " a fost rezervat deja. Dă refresh și alege altul.")]
             (exec (reserveSlot n u (displayName (pick_slot values u un dn))) W)))
    as Hrun.
  { unfold listener. rewrite (multi_pick_slot_run Number u un dn values n w) by done.
    cbv zeta. apply try_catch_ok. rewrite reserveSlot_then. fold W.
    rewrite Hnone. reflexivity. }
  destruct (run_result _ _ _ _ Hrun) as [-> ->].
  split; [done|]. split; [done|]. split; [|by repeat split].
  change (fridge_slots (exec (reserveSlot n u (displayName (pick_slot values u un dn))) W)
          = fridge_slots W).
  rewrite reserveSlot_slots. apply sql_update_none, Hnone.
Qed.

Lemma pick_slot_already_taken_witness :
  responses (exec (Multi.on_InteractionCreate sample_Number
                     (pick_slot ["1"] "alice" "alice" None)) carol_world) =
    [text ("❌ Frigiderul " +:+ pad2 1 +:+
           " a fost rezervat deja. Dă refresh și alege altul.")].
Proof.
  assert (picked_number sample_Number ["1"] = Integral 1) as Hpicked by reflexivity.
  assert (1 ≤ 1 ≤ SLOT_COUNT) as Hn by (vm_compute; split; discriminate).
  assert (¬ free_slot (exec freeExpiredSlots carol_world) 1) as Htaken.
  { intros Hfree. apply free_slot_filter in Hfree. apply Hfree.
    vm_compute. reflexivity. }
  destruct (pick_slot_already_taken sample_Number "alice" "alice" None ["1"] 1
              carol_world Hpicked Hn reachable_carol Htaken) as (_ & Hresp & _).
  exact Hresp.
Defined.



(** ** The release menu *)

Lemma releaseSpecificSlot_then {B} s u (k : option Z → M B) w :
  (let! released := releaseSpecificSlot s u in k released) w =
  k (slot_no <$> head (clear_slot <$> List.filter (release_cond s u) (fridge_slots w)))
    (exec (releaseSpecificSlot s u) w).
Proof.
  unfold bind.
  by rewrite (run_pair (releaseSpecificSlot s u) w), releaseSpecificSlot_eval.
Qed.

Lemma multi_release_pick_run Number u un dn values n w :
  picked_number Number values = Integral n →
  1 ≤ n ≤ SLOT_COUNT →
  Multi.on_InteractionCreate Number (release_pick values u un dn) w =
  try_catch
    (let! released := releaseSpecificSlot n u in
     match released with
     | Some m =>
         if m =? 0
         then interaction_editReply
                (text ("❌ Nu poți elibera frigiderul " +:+ pad2 n +:+
                       " (nu este rezervat de tine sau e deja liber)."))
         else
           do! upsertPanelMessage MultiSlot in
           interaction_editReply
             (text ("✅ Ai eliberat frigiderul **" +:+ pad2 m +:+ "**."))
     | None =>
         interaction_editReply
           (text ("❌ Nu poți elibera frigiderul " +:+ pad2 n +:+
                  " (nu este rezervat de tine sau e deja liber)."))
     end)
    (λ _, on_error) (exec freeExpiredSlots (deferred w)).
Proof.
  intros Hpicked Hn. rewrite multi_listener_run.
  change (Multi.dispatch Number (release_pick values u un dn))
    with (Multi.on_fridge_release_pick Number (release_pick values u un dn) values).
  apply try_catch_ext. unfold Multi.on_fridge_release_pick. cbv zeta.
  rewrite Hpicked, (slot_valid n Hn). cbn [integer_value]. reflexivity.
Qed.


Lemma releaseSpecificSlot_iff_filter w s u :
  (¬ holds w s u →
     slot_no <$> head (clear_slot <$> List.filter (release_cond s u) (fridge_slots w))
     = None) ∧
  (holds w s u →
     slot_no <$> head (clear_slot <$> List.filter (release_cond s u) (fridge_slots w))
     = Some s).
Proof.
  rewrite holds_filter. destruct (List.filter _ _) as [|r l] eqn:Hf; simpl.
  - split; [done|]. intros H. by destruct H.
  - split; [intros H; by destruct H|]. intros _.
    assert (r ∈ List.filter (release_cond s u) (fridge_slots w)) as Hr
      by (rewrite Hf; apply list_elem_of_here).
    apply filter_elem_of in Hr as [_ Hc]. apply release_cond_true in Hc as [-> _].
    done.
Qed.



(** X15. Picking, in the release menu, a valid slot that the user does not
    hold once the listener's sweep has run (it is free, someone else's, or
    the user's lease has just been swept): the user is told that the slot
    cannot be released, the rows are those the sweep left, and nothing is
    published. *)
Theorem release_pick_not_held Number u un dn values n w :
  picked_number Number values = Integral n →
  1 ≤ n ≤ SLOT_COUNT →
  ¬ holds (exec freeExpiredSlots w) n u →
  let listener := Multi.on_InteractionCreate Number (release_pick values u un dn) in
  eval listener w = Ok tt ∧
  responses (exec listener w) =
    [text ("❌ Nu poți elibera frigiderul " +:+ pad2 n +:+
           " (nu este rezervat de tine sau e deja liber).")] ∧
  fridge_slots (exec listener w) = fridge_slots (exec freeExpiredSlots w) ∧
  fridge_meta (exec listener w) = fridge_meta w ∧
  messages (exec listener w) = messages w ∧
  discord_log (exec listener w) = discord_log w.
Proof.
  intros Hpicked Hn Hnot listener.
  set (W := exec freeExpiredSlots (deferred w)).
  assert (¬ holds W n u) as HnotW by exact Hnot.
  destruct (releaseSpecificSlot_iff_filter W n u) as [Hnone _].
  specialize (Hnone HnotW).
  assert (listener w =
          (Ok tt,
           set_interaction true
             [text ("❌ Nu poți elibera frigiderul " +:+ pad2 n +:+
                    " (nu este rezervat de tine sau e deja liber).")]
             (exec (releaseSpecificSlot n u) W))) as Hrun.
  { unfold listener. rewrite (multi_release_pick_run Number u un dn values n w) by done.
    apply try_catch_ok. rewrite releaseSpecificSlot_then. fold W.
    rewrite Hnone. reflexivity. }
  destruct (run_result _ _ _ _ Hrun) as [-> ->].
  split; [done|]. split; [done|]. split; [|by repeat split].
  change (fridge_slots (exec (releaseSpecificSlot n u) W) = fridge_slots W).
  rewrite releaseSpecificSlot_slots. apply sql_update_none.
  destruct (List.filter _ _) eqn:Hf; [done|]. exfalso. apply HnotW.
  apply holds_filter. by rewrite Hf.
Qed.

Lemma release_pick_not_held_witness :
  responses (exec (Multi.on_InteractionCreate sample_Number
                     (release_pick ["1"] "carol" "carol" None)) expired_world) =
    [text ("❌ Nu poți elibera frigiderul " +:+ pad2 1 +:+
           " (nu este rezervat de tine sau e deja liber).")].
Proof.
  assert (picked_number sample_Number ["1"] = Integral 1) as Hpicked by reflexivity.
  assert (1 ≤ 1 ≤ SLOT_COUNT) as Hn by (vm_compute; split; discriminate).
  assert (¬ holds (exec freeExpiredSlots expired_world) 1 "carol") as Hnot.
  { intros Hheld. apply holds_filter in Hheld. apply Hheld. vm_compute. reflexivity. }
  destruct (release_pick_not_held sample_Number "carol" "carol" None ["1"] 1
              expired_world Hpicked Hn Hnot) as (_ & Hresp & _).
  exact Hresp.
Defined.

(** ** The buttons *)

Lemma reachable_at_most_slot_count w :
  reachable w → (length (fridge_slots w) ≤ Z.to_nat SLOT_COUNT)%nat.
Proof.
  intros Hreach. destruct (reachable_table_ok w Hreach) as [Hnd _].
  rewrite <- (length_fmap slot_no). apply in_range_length; [done|].
  destruct Hreach as (w0 & Hw0 & Hsteps).
  apply (steps_slot_numbers_in_range w0); [done|].
  unfold slot_numbers. rewrite Hw0. constructor.
Qed.

Lemma swept_at_most_25 w :
  reachable w →
  (length (order_by_slot_no (fridge_slots (exec freeExpiredSlots w))) ≤ 25)%nat.
Proof.
  intros Hreach. pose proof (reachable_at_most_slot_count w Hreach) as Hlen.
  rewrite (Permutation_length (order_by_slot_no_Permutation _)).
  rewrite freeExpiredSlots_slots, sql_update_rows, length_fmap.
  assert (Z.to_nat SLOT_COUNT = 24%nat) as Hc by done. lia.
Qed.

Lemma reserve_button_run w :
  let free := without_holder
                (order_by_slot_no (fridge_slots (exec freeExpiredSlots w))) in
  on_fridge_reserve (arrival w) =
  (Ok tt,
   set_interaction true
     [if bool_decide (length free = 0%nat)
      then text "❌ Nu există frigidere libere acum."
      else Response "Selectează frigiderul pe care vrei să-l rezervi (8 ore):"
             (Some ("fridge_pick_slot",
                    (λ s, slot_option ("Rezervare pentru " +:+ js_String RESERVE_HOURS
                                       +:+ " ore") (slot_no s)) <$> take 25 free))]
     (count_query (exec freeExpiredSlots (arrival w)))).
Proof.
  intros free. unfold on_fridge_reserve. unfold bind at 1.
  change (freeExpiredSlots (arrival w)) with (Ok tt, exec freeExpiredSlots (arrival w)).
  cbv beta iota. unfold bind at 1. unfold getSlots at 1. cbv beta iota zeta.
  change (List.filter (λ s, negb (truthy (reserved_by_id s)))
            (order_by_slot_no (fridge_slots (exec freeExpiredSlots (arrival w)))))
    with free.
  by destruct (bool_decide (length free = 0%nat)).
Qed.

(** X16. The reserve button, in both files: after the listener's sweep it
    offers, in ascending order of slot number, every slot whose
    [reserved_by_id] is null or empty, none left out by the cut at 25
    options (a reachable table has at most [SLOT_COUNT] rows), each with
    [String(slot_no)] as its value; when there is none it says so instead.
    Beyond the sweep it writes nothing. *)
Theorem reserve_button_offers_every_free_slot Number u un dn w :
  reachable w →
  let free := without_holder
                (order_by_slot_no (fridge_slots (exec freeExpiredSlots w))) in
  let button := Interaction (ButtonPress "fridge_reserve") u un dn in
  let w' := exec (Multi.on_InteractionCreate Number button) w in
  eval (Multi.on_InteractionCreate Number button) w = Ok tt ∧
  Single.on_InteractionCreate Number button w = Multi.on_InteractionCreate Number button w ∧
  (free = [] → responses w' = [text "❌ Nu există frigidere libere acum."]) ∧
  (free ≠ [] →
     responses w' =
       [Response "Selectează frigiderul pe care vrei să-l rezervi (8 ore):"
          (Some ("fridge_pick_slot",
                 (λ s, MenuOption ("Frigider " +:+ pad2 (slot_no s))
                                  (js_String (slot_no s))
                                  "Rezervare pentru 8 ore") <$> free))]) ∧
  fridge_slots w' = fridge_slots (exec freeExpiredSlots w) ∧
  fridge_meta w' = fridge_meta w ∧
  messages w' = messages w ∧
  discord_log w' = discord_log w.
Proof.
  intros Hreach free button w'.
  assert (take 25 free = free) as Hall.
  { apply take_ge. pose proof (swept_at_most_25 w Hreach) as Hlen.
    pose proof (List.filter_length_le (λ s, negb (truthy (reserved_by_id s)))
                  (order_by_slot_no (fridge_slots (exec freeExpiredSlots w)))) as Hle.
    unfold free, without_holder. lia. }
  pose proof (reserve_button_run w) as Hrun. cbv zeta in Hrun. fold free in Hrun.
  rewrite Hall in Hrun.
  assert (try_catch on_fridge_reserve (λ _, on_error) (arrival w)
          = on_fridge_reserve (arrival w)) as Hguard
    by (rewrite (try_catch_ok _ _ _ _ _ Hrun); by rewrite Hrun).
  assert (Multi.on_InteractionCreate Number button w = on_fridge_reserve (arrival w))
    as Hmulti by (rewrite multi_listener_run; exact Hguard).
  assert (Single.on_InteractionCreate Number button w
          = Multi.on_InteractionCreate Number button w) as Hsingle
    by (rewrite Hmulti, single_listener_run; exact Hguard).
  rewrite Hrun in Hmulti.
  unfold w'. destruct (run_result _ _ _ _ Hmulti) as [-> ->].
  split; [done|]. split; [done|]. split; [|split; [|by repeat split]].
  - intros ->. done.
  - intros Hne. simpl. destruct free; [done|]. reflexivity.
Qed.

Lemma reserve_button_offers_every_free_slot_witness :
  fridge_slots (exec (Multi.on_InteractionCreate sample_Number
                        (Interaction (ButtonPress "fridge_reserve") "bob" "bob" None))
                     expired_world) =
  fridge_slots (exec freeExpiredSlots expired_world).
Proof.
  destruct (reserve_button_offers_every_free_slot sample_Number "bob" "bob" None
              expired_world reachable_expired) as (_ & _ & _ & _ & Hslots & _).
  exact Hslots.
Defined.




(** X18. What the listeners do not know they ignore: a button, a select menu
    or a command with another identifier gets no answer and changes nothing,
    in either file. In [index.js] that includes the select menu
    [fridge_release_pick], which it has no handler for. *)
Theorem unknown_interactions_ignored Number u un dn w :
  let untouched (listener : M unit) :=
    listener w = (Ok tt, set_interaction false [] w) in
  (∀ id, id ≠ "fridge_refresh" → id ≠ "fridge_reserve" → id ≠ "fridge_release" →
     untouched (Multi.on_InteractionCreate Number (Interaction (ButtonPress id) u un dn)) ∧
     untouched (Single.on_InteractionCreate Number (Interaction (ButtonPress id) u un dn))) ∧
  (∀ id values, id ≠ "fridge_pick_slot" →
     (id ≠ "fridge_release_pick" →
        untouched (Multi.on_InteractionCreate Number
                     (Interaction (StringSelectMenu id values) u un dn))) ∧
     untouched (Single.on_InteractionCreate Number
                  (Interaction (StringSelectMenu id values) u un dn))) ∧
  (∀ name, name ≠ "setup-frigidere" →
     untouched (Multi.on_InteractionCreate Number
                  (Interaction (ChatInputCommand name) u un dn)) ∧
     untouched (Single.on_InteractionCreate Number
                  (Interaction (ChatInputCommand name) u un dn))).
Proof.
  intros untouched. unfold untouched. split; [|split].
  - intros id H1 H2 H3. split.
    + rewrite multi_listener_run. apply try_catch_ok. unfold Multi.dispatch; simpl.
      by rewrite !bool_decide_false by done.
    + rewrite single_listener_run. apply try_catch_ok. unfold Single.dispatch; simpl.
      by rewrite !bool_decide_false by done.
  - intros id values H1. split.
    + intros H2. rewrite multi_listener_run. apply try_catch_ok.
      unfold Multi.dispatch; simpl. by rewrite !bool_decide_false by done.
    + rewrite single_listener_run. apply try_catch_ok. unfold Single.dispatch; simpl.
      by rewrite !bool_decide_false by done.
  - intros name H1. split.
    + rewrite multi_listener_run. apply try_catch_ok. unfold Multi.dispatch; simpl.
      by rewrite !bool_decide_false by done.
    + rewrite single_listener_run. apply try_catch_ok. unfold Single.dispatch; simpl.
      by rewrite !bool_decide_false by done.
Qed.

(** ** Labels *)

Lemma string_length_app (s1 s2 : string) :
  String.length (s1 +:+ s2) = (String.length s1 + String.length s2)%nat.
Proof. induction s1 as [|c s1 IH]; simpl; [done|]. by rewrite IH. Qed.

Lemma zeros_length k : String.length (zeros k) = k.
Proof. induction k as [|k IH]; simpl; [done|]. f_equal. exact IH. Qed.

Lemma NoDup_fmap_injective {A B} (f : A → B) (l : list A) x y :
  NoDup (f <$> l) → x ∈ l → y ∈ l → f x = f y → x = y.
Proof.
  induction l as [|a l IH]; intros Hnd Hx Hy Heq.
  - by apply elem_of_nil in Hx.
  - apply NoDup_cons in Hnd as [Ha Hnd]. fold (fmap f l) in Ha, Hnd.
    apply elem_of_cons in Hx as [->|Hx]; apply elem_of_cons in Hy as [->|Hy].
    + done.
    + exfalso. apply Ha. rewrite Heq. apply list_elem_of_fmap. by exists y.
    + exfalso. apply Ha. rewrite <- Heq. apply list_elem_of_fmap. by exists x.
    + by apply IH.
Qed.

Lemma pad2_distinct_labels : NoDup (pad2 <$> seqZ 1 SLOT_COUNT).
Proof. apply (bool_decide_unpack _). vm_compute. exact I. Qed.

Lemma pad2_widths : Forall (λ n, String.length (pad2 n) = 2%nat) (seqZ 1 SLOT_COUNT).
Proof. apply (bool_decide_unpack _). vm_compute. exact I. Qed.

(** X19. [pad2] never cuts: its result is [String(n)] with zeros in front,
    as many as [String(n)] lacks to two characters. For the slot numbers, 1
    to [SLOT_COUNT], the label has exactly two characters, and different
    slots have different labels. *)
Theorem pad2_labels :
  (∀ n, pad2 n = zeros (2 - String.length (js_String n)) +:+ js_String n ∧
        String.length (pad2 n) = (2 `max` String.length (js_String n))%nat) ∧
  (∀ n, 1 ≤ n ≤ SLOT_COUNT → String.length (pad2 n) = 2%nat) ∧
  (∀ n m, 1 ≤ n ≤ SLOT_COUNT → 1 ≤ m ≤ SLOT_COUNT → pad2 n = pad2 m → n = m).
Proof.
  split; [|split].
  - intros n. split; [done|]. unfold pad2, padStart0.
    rewrite string_length_app, zeros_length. lia.
  - intros n Hn. pose proof pad2_widths as Hw. rewrite Forall_forall in Hw.
    apply Hw, elem_of_seqZ. lia.
  - intros n m Hn Hm Heq.
    apply (NoDup_fmap_injective pad2 (seqZ 1 SLOT_COUNT)); [apply pad2_distinct_labels|..|done];
      apply elem_of_seqZ; lia.
Qed.

(** ** The reserve menu of [index.js] *)






(** ** Starting and starting again *)

Lemma ensure_slots_frame k i w :
  db_now (exec (ensure_slots k i) w) = db_now w ∧
  js_now (exec (ensure_slots k i) w) = js_now w ∧
  panel_channel (exec (ensure_slots k i) w) = panel_channel w ∧
  incoming_ids (exec (ensure_slots k i) w) = incoming_ids w.
Proof.
  revert i w. induction k as [|k IH]; intros i w; [done|].
  change (exec (ensure_slots (S k) i) w)
    with (exec (ensure_slots k (i + 1))
            (count_query (set_slots (insert_slot i (fridge_slots w)) w))).
  destruct (IH (i + 1) (count_query (set_slots (insert_slot i (fridge_slots w)) w)))
    as (-> & -> & -> & ->).
  done.
Qed.

Lemma dbInit_frame w :
  eval dbInit w = Ok tt ∧
  fridge_meta (exec dbInit w) = fridge_meta w ∧
  messages (exec dbInit w) = messages w ∧
  discord_log (exec dbInit w) = discord_log w ∧
  db_now (exec dbInit w) = db_now w ∧
  js_now (exec dbInit w) = js_now w ∧
  panel_channel (exec dbInit w) = panel_channel w ∧
  incoming_ids (exec dbInit w) = incoming_ids w.
Proof.
  rewrite dbInit_eval, dbInit_exec.
  destruct (ensure_slots_run (Z.to_nat SLOT_COUNT) 1 (count_query (count_query w)))
    as (-> & _ & -> & -> & -> & _).
  destruct (ensure_slots_frame (Z.to_nat SLOT_COUNT) 1 (count_query (count_query w)))
    as (-> & -> & -> & ->).
  done.
Qed.

Lemma startup_run v w :
  startup v true w = upsertPanelMessage v (exec dbInit w).
Proof.
  unfold startup, bind. rewrite (run_pair dbInit w).
  by destruct (dbInit_frame w) as (-> & _).
Qed.

Lemma startup_refused v w :
  startup v false w = (Throw (DiscordAPIError "put"), exec dbInit w).
Proof.
  unfold startup, bind. rewrite (run_pair dbInit w).
  by destruct (dbInit_frame w) as (-> & _).
Qed.

Lemma rendered_same_rows v w w0 :
  fridge_slots w0 = fridge_slots w → db_now w0 = db_now w → js_now w0 = js_now w →
  rendered v w0 = rendered v w.
Proof.
  intros Hslots Hdb Hjs. unfold rendered.
  by rewrite Hjs, (freeExpiredSlots_slots w0), (freeExpiredSlots_slots w), Hdb, Hslots.
Qed.

Lemma edited_fields x ms ids log :
  fridge_slots (set_discord ms ids log (after_queries x))
    = fridge_slots (exec freeExpiredSlots x) ∧
  fridge_meta (set_discord ms ids log (after_queries x)) = fridge_meta x ∧
  messages (set_discord ms ids log (after_queries x)) = ms ∧
  discord_log (set_discord ms ids log (after_queries x)) = log ∧
  incoming_ids (set_discord ms ids log (after_queries x)) = ids.
Proof. done. Qed.

(** X21. Starting the bot again (the registration of the command being
    accepted) on a database that has its slots and a panel message that
    still exists: [dbInit] adds nothing, the leases are
    kept (but for the sweep of the refresh), the stored identifier is kept,
    and the existing message is edited to the current document; no second
    message is sent. *)
Theorem restart_keeps_leases_and_panel v w id :
  (∀ i, 1 ≤ i ≤ SLOT_COUNT → i ∈ slot_numbers w) →
  panel_channel w = true →
  fridge_meta w !! "panel_message_id" = Some id →
  id ≠ "" →
  is_Some (messages w !! id) →
  let w' := exec (startup v true) w in
  eval (startup v true) w = Ok tt ∧
  fridge_slots (exec dbInit w) = fridge_slots w ∧
  fridge_slots w' = fridge_slots (exec freeExpiredSlots w) ∧
  fridge_meta w' = fridge_meta w ∧
  messages w' = <[id := rendered v w]> (messages w) ∧
  dom (messages w') = dom (messages w) ∧
  discord_log w' = discord_log w ++ [Edited id] ∧
  incoming_ids w' = incoming_ids w.
Proof.
  intros Hall Hc Hmeta Hid Hmsg w'.
  assert (fridge_slots (exec dbInit w) = fridge_slots w) as Hrows.
  { rewrite dbInit_rows. apply ensure_rows_present. intros j Hj. apply Hall.
    assert (Z.of_nat (Z.to_nat SLOT_COUNT) = SLOT_COUNT) as Hcount by done. lia. }
  destruct (dbInit_frame w) as (_ & Hmeta0 & Hmsgs0 & Hlog0 & Hdb0 & Hjs0 & Hc0 & Hids0).
  assert (panel_channel (exec dbInit w) = true) as Hc1 by by rewrite Hc0.
  assert (fridge_meta (exec dbInit w) !! "panel_message_id" = Some id) as Hmeta1
    by by rewrite Hmeta0.
  assert (is_Some (messages (exec dbInit w) !! id)) as Hmsg1 by by rewrite Hmsgs0.
  pose proof (upsertPanelMessage_edits v (exec dbInit w) id Hc1 Hmeta1 Hid Hmsg1) as Hrun.
  rewrite (rendered_same_rows v w (exec dbInit w)) in Hrun by done.
  rewrite Hmsgs0, Hids0, Hlog0 in Hrun.
  assert (startup v true w =
          (Ok tt, set_discord (<[id := rendered v w]> (messages w)) (incoming_ids w)
                    (discord_log w ++ [Edited id]) (after_queries (exec dbInit w))))
    as Hstart by (rewrite startup_run; exact Hrun).
  unfold w'. destruct (run_result _ _ _ _ Hstart) as [-> ->].
  destruct (edited_fields (exec dbInit w) (<[id := rendered v w]> (messages w))
              (incoming_ids w) (discord_log w ++ [Edited id]))
    as (-> & -> & -> & -> & ->).
  split; [reflexivity|]. split; [exact Hrows|].
  split.
  { by rewrite (freeExpiredSlots_slots (exec dbInit w)), Hrows, Hdb0,
               (freeExpiredSlots_slots w). }
  split; [exact Hmeta0|]. split; [reflexivity|]. split; [|split; reflexivity].
  by apply dom_insert_lookup_L.
Qed.

Lemma restart_keeps_leases_and_panel_witness :
  discord_log (exec (startup MultiSlot true) (exec (startup MultiSlot true) carol_world)) =
  discord_log (exec (startup MultiSlot true) carol_world) ++ [Edited "1001"].
Proof.
  set (w := exec (startup MultiSlot true) carol_world).
  assert (∀ i, 1 ≤ i ≤ SLOT_COUNT → i ∈ slot_numbers w) as Hall.
  { intros i Hi. assert (i ∈ seqZ 1 SLOT_COUNT) as Hin by (apply elem_of_seqZ; lia).
    assert (slot_numbers w = seqZ 1 SLOT_COUNT) as -> by (vm_compute; reflexivity).
    exact Hin. }
  assert (panel_channel w = true) as Hc by (vm_compute; reflexivity).
  assert (fridge_meta w !! "panel_message_id" = Some "1001") as Hmeta
    by (vm_compute; reflexivity).
  assert ("1001" ≠ "") as Hid by discriminate.
  assert (is_Some (messages w !! "1001")) as Hmsg.
  { apply (bool_decide_unpack _). vm_compute. exact I. }
  destruct (restart_keeps_leases_and_panel MultiSlot w "1001" Hall Hc Hmeta Hid Hmsg)
    as (_ & _ & _ & _ & _ & _ & Hlog & _).
  exact Hlog.
Defined.

Lemma sent_fields x meta ms ids log :
  fridge_slots (count_query (set_meta meta (set_discord ms ids log (after_queries x))))
    = fridge_slots (exec freeExpiredSlots x) ∧
  fridge_meta (count_query (set_meta meta (set_discord ms ids log (after_queries x))))
    = meta ∧
  messages (count_query (set_meta meta (set_discord ms ids log (after_queries x)))) = ms ∧
  discord_log (count_query (set_meta meta (set_discord ms ids log (after_queries x))))
    = log.
Proof. done. Qed.

Lemma sweep_of_blank_rows w (ns : list Z) :
  fridge_slots w = blank_slot <$> ns →
  fridge_slots (exec freeExpiredSlots w) = blank_slot <$> ns.
Proof.
  intros Hrows. rewrite freeExpiredSlots_slots, Hrows.
  apply sql_update_none, filter_nil_iff. intros r Hr.
  apply list_elem_of_fmap in Hr as (n & -> & _). done.
Qed.

(** X22. The first start, on an empty table, with the channel there, no
    panel yet and Discord accepting a message. When the registration of the
    command is accepted, the table afterwards holds the [SLOT_COUNT] blank
    rows in ascending order, one message has been sent, and its identifier
    is stored and points to the document rendered. When the registration is
    rejected the listener throws there: the rows have been created, and no
    panel is sent. *)
Theorem first_start_creates_slots_and_panel v w id ids :
  fridge_slots w = [] →
  panel_channel w = true →
  no_panel_message w →
  incoming_ids w = id :: ids →
  let w' := exec (startup v true) w in
  eval (startup v true) w = Ok tt ∧
  fridge_slots w' = blank_slot <$> seqZ 1 SLOT_COUNT ∧
  fridge_meta w' !! "panel_message_id" = Some id ∧
  messages w' = <[id := rendered v (exec dbInit w)]> (messages w) ∧
  discord_log w' = discord_log w ++ [Sent id] ∧
  eval (startup v false) w = Throw (DiscordAPIError "put") ∧
  fridge_slots (exec (startup v false) w) = blank_slot <$> seqZ 1 SLOT_COUNT ∧
  messages (exec (startup v false) w) = messages w ∧
  discord_log (exec (startup v false) w) = discord_log w.
Proof.
  intros Hempty Hc Hnone Hids w'.
  assert (fridge_slots (exec dbInit w) = blank_slot <$> seqZ 1 SLOT_COUNT) as Hrows.
  { rewrite dbInit_rows, Hempty, ensure_rows_fresh.
    - assert (Z.of_nat (Z.to_nat SLOT_COUNT) = SLOT_COUNT) as -> by done. done.
    - intros n Hn. by apply elem_of_nil in Hn. }
  destruct (dbInit_frame w) as (_ & Hmeta0 & Hmsgs0 & Hlog0 & Hdb0 & Hjs0 & Hc0 & Hids0).
  assert (panel_channel (exec dbInit w) = true) as Hc1 by by rewrite Hc0.
  assert (no_panel_message (exec dbInit w)) as Hnone1.
  { unfold no_panel_message. rewrite Hmeta0, Hmsgs0. exact Hnone. }
  assert (incoming_ids (exec dbInit w) = id :: ids) as Hids1 by by rewrite Hids0.
  pose proof (upsertPanelMessage_sends v (exec dbInit w) id ids Hc1 Hnone1 Hids1) as Hrun.
  rewrite Hmeta0, Hmsgs0, Hlog0 in Hrun.
  assert (startup v true w = _) as Hstart by (rewrite startup_run; exact Hrun).
  unfold w'. destruct (run_result _ _ _ _ Hstart) as [-> ->].
  destruct (run_result _ _ _ _ (startup_refused v w)) as [-> ->].
  destruct (sent_fields (exec dbInit w) (<["panel_message_id" := id]> (fridge_meta w))
              (<[id := rendered v (exec dbInit w)]> (messages w)) ids
              (discord_log w ++ [Sent id]))
    as (-> & -> & -> & ->).
  split; [reflexivity|]. split; [by apply sweep_of_blank_rows|].
  split; [apply lookup_insert_eq|]. do 3 (split; [reflexivity|]).
  split; [exact Hrows|]. split; [exact Hmsgs0|exact Hlog0].
Qed.

Lemma first_start_creates_slots_and_panel_witness :
  fridge_slots (exec (startup MultiSlot true) fresh_world) = blank_slot <$> seqZ 1 SLOT_COUNT ∧
  discord_log (exec (startup MultiSlot true) fresh_world) = [Sent "1001"].
Proof.
  assert (no_panel_message fresh_world) as Hnone.
  { intros old _ _. apply lookup_empty. }
  destruct (first_start_creates_slots_and_panel MultiSlot fresh_world "1001"
              ["1002"; "1003"] eq_refl eq_refl Hnone eq_refl)
    as (_ & Hrows & _ & _ & Hlog & _).
  exact (conj Hrows Hlog).
Defined.

(** ** The command and the refresh button *)


